(** * Drone detector: event aggregation core of [drone_detector.py]

    A shallow embedding of the [DroneDetector] class: the detection
    queue, the registry [detected_drones], the capped
    [detection_history], the [stats] dictionary, the consumer loop
    [process_detections], the periodic tick of [start] and the two
    export paths [api_export] and [save_data].

    Python dictionaries are mutable objects that the program shares:
    the dictionary a producer enqueues is the very object that becomes
    the registry entry and the history entry.  The model therefore keeps
    an object store and lets the registry, the history and the queue
    hold references into it. *)

From Stdlib Require Import ZArith String List OrderedTypeEx.
From Stdlib Require Import Floats.PrimFloat.
From stdpp Require Import gmap strings list fin_maps pretty sorting.

#[local] Set Warnings "-register-all".

Local Open Scope string_scope.
Local Open Scope list_scope.
Local Open Scope Z_scope.

(** ** Values and objects *)

(** The values the detection dictionaries carry: Python [int], [float],
    [str] and a nested [dict] (the [location] entry). *)
Inductive value : Type :=
| VInt (n : Z)
| VFloat (x : float)
| VStr (s : string)
| VDict (d : list (string * value)).

(** A dictionary with string keys. *)
Abbreviation py_dict := (gmap string value).

(** A reference to a dictionary object: its index in the store. *)
Abbreviation loc := nat (only parsing).

Inductive exn : Type :=
| KeyError (k : string)
| TypeError
| QueueEmpty.

(** ** The detector state *)

(** [queue.Queue(maxsize)]: [maxsize <= 0] means unbounded. *)
Record py_queue : Type := PyQueue {
  maxsize : Z;
  items : list loc
}.

(** [self.stats]; [last_update] is a [datetime], kept as a number of
    clock ticks. *)
Record stats_t : Type := Stats {
  total_detections : Z;
  unique_drones : gset string;
  last_update : Z
}.

Record detector : Type := Detector {
  heap : list py_dict;
  detected_drones : gmap string loc;
  detection_history : list loc;
  running : bool;
  detection_queue : py_queue;
  stats : stats_t
}.

(** [DroneDetector.__init__]: empty registry and history, not running,
    [queue.Queue()] without a [maxsize], zeroed statistics. *)
Definition init (now : Z) : detector :=
  {| heap := [];
     detected_drones := ∅;
     detection_history := [];
     running := false;
     detection_queue := PyQueue 0 [];
     stats := Stats 0 ∅ now |}.

Definition set_heap (f : list py_dict → list py_dict) (st : detector) : detector :=
  Detector (f (heap st)) (detected_drones st) (detection_history st)
           (running st) (detection_queue st) (stats st).

Definition set_detected_drones (f : gmap string loc → gmap string loc)
    (st : detector) : detector :=
  Detector (heap st) (f (detected_drones st)) (detection_history st)
           (running st) (detection_queue st) (stats st).

Definition set_detection_history (f : list loc → list loc) (st : detector) : detector :=
  Detector (heap st) (detected_drones st) (f (detection_history st))
           (running st) (detection_queue st) (stats st).

Definition set_running (b : bool) (st : detector) : detector :=
  Detector (heap st) (detected_drones st) (detection_history st)
           b (detection_queue st) (stats st).

Definition set_queue_items (f : list loc → list loc) (st : detector) : detector :=
  Detector (heap st) (detected_drones st) (detection_history st) (running st)
           (PyQueue (maxsize (detection_queue st)) (f (items (detection_queue st))))
           (stats st).

Definition set_stats (f : stats_t → stats_t) (st : detector) : detector :=
  Detector (heap st) (detected_drones st) (detection_history st)
           (running st) (detection_queue st) (f (stats st)).

(** ** Statements: state passing with exceptions

    A statement runs on the detector state and either returns a result
    or raises; what it mutated before raising stays mutated, as in
    Python. *)
Definition M (A : Type) : Type := detector → (exn + A) * detector.

Definition m_ret {A} (a : A) : M A := λ st, (inr a, st).

Definition m_bind {A B} (f : A → M B) (m : M A) : M B :=
  λ st, match m st with
        | (inl e, st') => (inl e, st')
        | (inr a, st') => f a st'
        end.

Definition raise {A} (e : exn) : M A := λ st, (inl e, st).

Definition gets {A} (f : detector → A) : M A := λ st, (inr (f st), st).

Definition modify (f : detector → detector) : M unit := λ st, (inr (), f st).

#[global] Instance M_ret : MRet M := @m_ret.
#[global] Instance M_bind : MBind M := @m_bind.

(** [o[k]]: raises [KeyError] when the key is missing. *)
Definition dict_getitem (o : loc) (k : string) : M value :=
  λ st, match heap st !! o ≫= (.!! k) with
        | Some v => (inr v, st)
        | None => (inl (KeyError k), st)
        end.

(** [o[k] = v]: mutates the object in the store. *)
Definition dict_setitem (o : loc) (k : string) (v : value) : M unit :=
  modify (set_heap (alter (<[k := v]>) o)).

(** [v + 1] on a Python value: defined on numbers, [TypeError] on the others. *)
Definition py_add1 (v : value) : M value :=
  match v with
  | VInt n => mret (VInt (n + 1))
  | VFloat x => mret (VFloat (x + 1)%float)
  | VStr _ | VDict _ => raise TypeError
  end.

(** [o[k] += 1]. *)
Definition dict_iadd1 (o : loc) (k : string) : M unit :=
  v ← dict_getitem o k;
  v' ← py_add1 v;
  dict_setitem o k v'.

(** The registry is keyed by the [id] strings both producers build with
    an f-string; an [id] of another type is not modelled and is
    reported as a [TypeError]. *)
Definition as_key (v : value) : M string :=
  match v with
  | VStr s => mret s
  | _ => raise TypeError
  end.

(** [l[-n:]]: the last [n] elements, the whole list when it is shorter. *)
Definition py_last (n : nat) {A} (l : list A) : list A :=
  drop (length l - n) l.

(** ** [process_detections] *)

(** The body of the [try] block once a detection has been dequeued
    (source lines 252 to 274). *)
Definition process_detection (detection : loc) : M unit :=
  id ← dict_getitem detection "id";
  drone_id ← as_key id;
  known ← gets (λ st, detected_drones st !! drone_id);
  match known with
  | Some track =>
      ts ← dict_getitem detection "timestamp";
      dict_setitem track "last_seen" ts;;
      dict_iadd1 track "duration";;
      dict_iadd1 track "detection_count"
  | None =>
      ts ← dict_getitem detection "timestamp";
      dict_setitem detection "first_seen" ts;;
      dict_setitem detection "duration" (VInt 1);;
      dict_setitem detection "detection_count" (VInt 1);;
      modify (set_detected_drones (<[drone_id := detection]>));;
      modify (set_stats (λ s, Stats (total_detections s)
                                    ({[drone_id]} ∪ unique_drones s)
                                    (last_update s)))
  end;;
  modify (set_detection_history (λ h, h ++ [detection]));;
  modify (set_stats (λ s, Stats (total_detections s + 1) (unique_drones s)
                                (last_update s)));;
  len ← gets (λ st, length (detection_history st));
  if decide (1000 < len)%nat
  then modify (set_detection_history (py_last 1000))
  else mret ().

(** ** The detection queue

    [queue.Queue] of the Python standard library.  [put(item)] with the
    default [block=True, timeout=None] waits while a bounded queue is
    full and never raises; an unbounded queue accepts every item. *)
Inductive put_result : Type :=
| PutDone (q : py_queue)
| PutWaits.

Definition queue_put (q : py_queue) (item : loc) : put_result :=
  if decide (0 < maxsize q ∧ maxsize q ≤ Z.of_nat (length (items q)))
  then PutWaits
  else PutDone (PyQueue (maxsize q) (items q ++ [item])).

(** [self.detection_queue.get(timeout=1)]: the oldest item, or
    [queue.Empty] once the timeout has passed on an empty queue. *)
Definition detection_queue_get : M loc :=
  λ st, match items (detection_queue st) with
        | [] => (inl QueueEmpty, st)
        | item :: rest => (inr item, set_queue_items (λ _, rest) st)
        end.

(** A dictionary display [{...}] creates a new object. *)
Definition new_dict (d : py_dict) : M loc :=
  λ st, (inr (length (heap st)), set_heap (λ h, h ++ [d]) st).

(** [self.detection_queue.put(detection)] as both producers call it. *)
Definition detection_queue_put (item : loc) (st : detector) : detector :=
  match queue_put (detection_queue st) item with
  | PutDone q =>
      Detector (heap st) (detected_drones st) (detection_history st)
               (running st) q (stats st)
  | PutWaits => st
  end.

(** The identifier [f"RF_{int(freq)}_{int(time.time())}"] of an SDR
    detection. *)
Definition rf_id (mhz epoch : Z) : string :=
  "RF_" +:+ pretty mhz +:+ "_" +:+ pretty epoch.

(** The dictionary [sdr_callback] builds (source lines 130 to 138). *)
Definition sdr_detection (mhz epoch : Z) (freq power : value)
    (timestamp : string) (location : value) : py_dict :=
  <["location" := location]>
  (<["source" := VStr "SDR"]>
  (<["timestamp" := VStr timestamp]>
  (<["power" := power]>
  (<["frequency" := freq]>
  (<["type" := VStr "RF_SIGNAL"]>
  (<["id" := VStr (rf_id mhz epoch)]> ∅)))))).

(** [s[-n:]] on a string. *)
Definition str_last (n : nat) (s : string) : string :=
  String.substring (String.length s - n) n s.

(** The dictionary [start_wifi_detection] builds (source lines 202 to
    212); [signal_strength] and [channel] are Python [int]s. *)
Definition wifi_detection (bssid drone_type ssid : string) (signal channel : Z)
    (timestamp : string) (location : value) : py_dict :=
  <["location" := location]>
  (<["channel" := VInt channel]>
  (<["source" := VStr "Wi-Fi"]>
  (<["timestamp" := VStr timestamp]>
  (<["power" := VInt signal]>
  (<["bssid" := VStr bssid]>
  (<["ssid" := VStr ssid]>
  (<["type" := VStr drone_type]>
  (<["id" := VStr ("WIFI_" +:+ str_last 6 bssid)]> ∅)))))))).

(** A producer hands over one detection: build the dictionary, enqueue it. *)
Definition produce (d : py_dict) (st : detector) : detector :=
  match new_dict d st with
  | (inr o, st') => detection_queue_put o st'
  | (inl _, st') => st'
  end.

(** One pass through the [while self.running] loop of
    [process_detections]: both [except] clauses swallow the exception
    and the loop goes on; the result says which clause ran. *)
Definition loop_iteration : M unit :=
  detection ← detection_queue_get;
  process_detection detection.

Fixpoint process_detections (passes : nat) (st : detector) : detector :=
  match passes with
  | O => st
  | S n => if running st
           then process_detections n (loop_iteration st).2
           else st
  end.

(** [Apply(event)] of the specification: the detection object is
    created and goes through [process_detection]. *)
Definition apply_event (d : py_dict) : M unit :=
  o ← new_dict d;
  process_detection o.

Definition apply_all (st : detector) (evs : list py_dict) : detector :=
  foldl (λ s d, (apply_event d s).2) st evs.

(** ** The periodic tick and shutdown *)

(** One pass of the main loop of [start] (source lines 603 to 617):
    it refreshes [last_update] and prints three figures. *)
Definition tick (now : Z) (st : detector) : detector :=
  set_stats (λ s, Stats (total_detections s) (unique_drones s) now) st.

Record report_t : Type := Report {
  active_drones : nat;
  reported_detections : Z;
  reported_unique : nat
}.

Definition report (st : detector) : report_t :=
  Report (size (detected_drones st))
         (total_detections (stats st))
         (size (unique_drones (stats st))).

(** ** Exports *)

(** The content of an object at the time of reading. *)
Definition deref (h : list py_dict) (o : loc) : py_dict :=
  default ∅ (h !! o).








(** [save_data] (source lines 637 to 649). *)
Record saved_document : Type := SavedDocument {
  saved_detected_drones : gmap string py_dict;
  saved_detection_history : list py_dict;
  saved_total_detections : Z;
  saved_unique_drones : list string;
  saved_last_update : Z;
  saved_stop_time : Z
}.

Definition save_data (now : Z) (st : detector) : saved_document :=
  {| saved_detected_drones := deref (heap st) <$> detected_drones st;
     saved_detection_history := deref (heap st) <$> detection_history st;
     saved_total_detections := total_detections (stats st);
     saved_unique_drones := elements (unique_drones (stats st));
     saved_last_update := last_update (stats st);
     saved_stop_time := now |}.

(** ** Runs of the whole system *)

Inductive action : Type :=
| Start
| Stop
| Produce (d : py_dict)
| Consume
| Tick (now : Z).

Definition exec (st : detector) (a : action) : detector :=
  match a with
  | Start => set_running true st
  | Stop => set_running false st
  | Produce d => produce d st
  | Consume => if running st then (loop_iteration st).2 else st
  | Tick now => tick now st
  end.

Definition run (st : detector) (acts : list action) : detector :=
  foldl exec st acts.

(** The track stored for an identifier, read through the store. *)
Definition track (st : detector) (k : string) : option py_dict :=
  detected_drones st !! k ≫= λ r, heap st !! r.

(** ** What one processed detection does

    The two successful paths of [process_detection], written as plain
    functions on dictionaries and states; the lemmas of the second part
    show that the code computes them. *)

(** The entries the creating branch writes into the detection. *)
Definition new_track (ts : value) (d : py_dict) : py_dict :=
  <["detection_count" := VInt 1]>
  (<["duration" := VInt 1]> (<["first_seen" := ts]> d)).

(** The entries the updating branch writes into the stored track. *)
Definition seen_again (ts : value) (du dc : Z) (t : py_dict) : py_dict :=
  <["detection_count" := VInt (dc + 1)]>
  (<["duration" := VInt (du + 1)]> (<["last_seen" := ts]> t)).

(** History append, counter bump and truncation (lines 269 to 274). *)
Definition recorded (o : loc) (st : detector) : detector :=
  Detector (heap st) (detected_drones st)
           (py_last 1000 (detection_history st ++ [o]))
           (running st) (detection_queue st)
           (Stats (total_detections (stats st) + 1)
                  (unique_drones (stats st)) (last_update (stats st))).

Definition created (k : string) (o : loc) (ts : value) (st : detector) : detector :=
  recorded o
    (Detector (alter (new_track ts) o (heap st))
              (<[k := o]> (detected_drones st))
              (detection_history st) (running st) (detection_queue st)
              (Stats (total_detections (stats st))
                     ({[k]} ∪ unique_drones (stats st))
                     (last_update (stats st)))).

Definition updated (o r : loc) (ts : value) (du dc : Z) (st : detector) : detector :=
  recorded o (set_heap (alter (seen_again ts du dc) r) st).

Ltac run_stmt :=
  unfold loop_iteration, apply_event, process_detection, dict_iadd1,
    dict_setitem, dict_getitem, detection_queue_get, new_dict, as_key,
    py_add1, gets, modify, raise, mret, mbind, M_ret, M_bind, m_ret, m_bind;
  simpl.

(** ** Well-formed states *)

(** What a stored track looks like: it carries its own identifier and
    the two counters, equal and positive. *)
Definition track_ok (k : string) (t : py_dict) : Prop :=
  t !! "id" = Some (VStr k) ∧
  ∃ n, 1 ≤ n ∧ t !! "duration" = Some (VInt n) ∧
       t !! "detection_count" = Some (VInt n).

(** What every state reached from [init] satisfies. *)
Record wf (st : detector) : Prop := Wf {
  wf_tracks : ∀ k r, detected_drones st !! k = Some r →
                ∃ t, heap st !! r = Some t ∧ track_ok k t;
  wf_unique : dom (detected_drones st) = unique_drones (stats st);
  wf_history : (length (detection_history st) ≤ 1000)%nat;
  wf_history_refs : Forall (λ o, o < length (heap st))%nat (detection_history st);
  wf_queue_refs : Forall (λ o, o < length (heap st))%nat (items (detection_queue st));
  wf_maxsize : maxsize (detection_queue st) = 0
}.

(** The three ways [process_detection] can end on a well-formed state. *)
Inductive processed (st : detector) (o : loc) : (exn + unit) * detector → Prop :=
| processed_rejected e d :
    default ∅ (heap st !! o) = d →
    (∀ k, d !! "id" = Some (VStr k) → d !! "timestamp" = None) →
    processed st o (inl e, st)
| processed_created d k ts :
    heap st !! o = Some d →
    d !! "id" = Some (VStr k) →
    d !! "timestamp" = Some ts →
    detected_drones st !! k = None →
    processed st o (inr (), created k o ts st)
| processed_updated d k ts r t n :
    heap st !! o = Some d →
    d !! "id" = Some (VStr k) →
    d !! "timestamp" = Some ts →
    detected_drones st !! k = Some r →
    heap st !! r = Some t →
    track_ok k t →
    1 ≤ n →
    t !! "duration" = Some (VInt n) →
    t !! "detection_count" = Some (VInt n) →
    processed st o (inr (), updated o r ts n n st).

(** The state once the detection object exists. *)
Definition allocated (d : py_dict) (st : detector) : detector :=
  set_heap (λ h, h ++ [d]) st.

(** The keys [process_detection] writes; every other entry of a
    dictionary is payload. *)
Definition bookkeeping : list string :=
  ["first_seen"; "last_seen"; "duration"; "detection_count"].

(** ** Sample detections *)

(** Two SDR detections of the same second, hence with one identifier. *)
Definition near_riyadh : value :=
  VDict [("latitude", VFloat 24.71875); ("longitude", VFloat 46.6875);
         ("accuracy", VInt 50)].

Definition rf_first : py_dict :=
  sdr_detection 2400 1000 (VFloat 2400) (VFloat (-45))
                "2024-05-01T10:00:00.100000" near_riyadh.

Definition rf_second : py_dict :=
  sdr_detection 2400 1000 (VFloat 2400) (VFloat (-50))
                "2024-05-01T10:00:00.600000" near_riyadh.

(** ** Vocabulary of the properties *)

Definition has_id (k : string) (d : py_dict) : Prop :=
  d !! "id" = Some (VStr k).

(** The producers stamp a detection with [datetime.now().isoformat()],
    a string; such strings are compared as Python compares [str]. *)
Definition stamped (d : py_dict) (t : string) : Prop :=
  d !! "timestamp" = Some (VStr t).

(** The order of Python on [str], on the ASCII strings of timestamps. *)
Definition ts_le (a b : string) : Prop := String.leb a b = true.

Definition ts_max (a b : string) : string := if String.leb a b then b else a.
Definition ts_min (a b : string) : string := if String.leb a b then a else b.

(** The maximum and the minimum of a list of timestamps. *)
Definition latest (tss : list string) : option string :=
  foldr (λ t acc, Some (from_option (ts_max t) t acc)) None tss.

Definition earliest (tss : list string) : option string :=
  foldr (λ t acc, Some (from_option (ts_min t) t acc)) None tss.

(** A detection stamped after the wall clock has stepped back. *)
Definition rf_clock_back : py_dict :=
  sdr_detection 2400 1000 (VFloat 2400) (VFloat (-50))
                "2024-05-01T10:00:00.050000" near_riyadh.

(** The events [process_detection] goes through with: an [id] string
    and some timestamp. *)
Definition accepted (d : py_dict) : bool :=
  match d !! "id", d !! "timestamp" with
  | Some (VStr _), Some _ => true
  | _, _ => false
  end.

(** The registry key of an event, when it has one. *)
Definition event_id (d : py_dict) : option string :=
  match d !! "id" with
  | Some (VStr k) => Some k
  | _ => None
  end.

(** Object [t] still carries what event [d] carried. *)
Definition same_payload (d t : py_dict) : Prop :=
  ∀ f, f ∉ bookkeeping → t !! f = d !! f.

(** Detections of [n] consecutive seconds: [n] distinct identifiers. *)
Definition rf_at (epoch : Z) : py_dict :=
  sdr_detection 2400 epoch (VFloat 2400) (VFloat (-45))
                "2024-05-01T10:00:00.100000" near_riyadh.

Definition rf_burst (n : nat) : list py_dict :=
  (λ i, rf_at (Z.of_nat i)) <$> seq 0 n.


(** An event that lacks a required field. *)
Definition malformed (d : py_dict) : Prop :=
  d !! "id" = None ∨ d !! "timestamp" = None.

(** Everything the detector object holds besides its queue. *)
Definition attributes (st : detector) :=
  (heap st, detected_drones st, detection_history st, running st, stats st).

(** A detection without its [id]. *)
Definition rf_without_id : py_dict := delete "id" rf_first.

(** A run that starts the system and handles two detections. *)
Definition two_detections : list action :=
  [Start; Produce rf_first; Consume; Produce rf_second; Consume].

(** Each event is produced and consumed before the next one arrives. *)
Definition churn (evs : list py_dict) : list action :=
  evs ≫= λ d, [Produce d; Consume].

(** ** What readers are served *)

(** The registry with every reference followed, as [jsonify] and
    [json.dump] walk it. *)
Definition tracks (st : detector) : gmap string py_dict :=
  deref (heap st) <$> detected_drones st.

(** [api_drones] (source lines 519 to 525).  Python lists the tracks in
    insertion order; the model lists the same tracks in the order of the
    map, so only order-independent facts are stated about the list. *)
Record drones_response : Type := DronesResponse {
  resp_drones : list py_dict;
  resp_total_drones : nat;
  resp_total_detections : Z;
  resp_timestamp : Z
}.

Definition api_drones (now : Z) (st : detector) : drones_response :=
  let drones_list := (λ kr, deref (heap st) kr.2) <$> map_to_list (detected_drones st) in
  {| resp_drones := drones_list;
     resp_total_drones := length drones_list;
     resp_total_detections := total_detections (stats st);
     resp_timestamp := now |}.

(** The [detection_count] a track shows, 0 when it shows no integer. *)
Definition detection_count_of (t : py_dict) : Z :=
  match t !! "detection_count" with
  | Some (VInt n) => n
  | _ => 0
  end.

Definition sum_detection_counts (l : list py_dict) : Z :=
  foldr (λ t acc, detection_count_of t + acc) 0 l.

(** A state with another queue. *)
Definition with_queue (q : py_queue) (st : detector) : detector :=
  Detector (heap st) (detected_drones st) (detection_history st)
           (running st) q (stats st).

(** What the tracks of a reachable state show besides their counters. *)
Definition track_stamps (t : py_dict) : Prop :=
  (∃ ts, t !! "timestamp" = Some ts ∧ t !! "first_seen" = Some ts) ∧
  (∀ n, t !! "detection_count" = Some (VInt n) → 2 ≤ n →
        is_Some (t !! "last_seen")).

(** The detections the registry accounts for. *)
Definition sum_tracks (m : gmap string py_dict) : Z :=
  map_fold (λ _ t acc, detection_count_of t + acc) 0 m.

(** Whether the object behind a reference is an accepted event. *)
Definition accepted_at (st : detector) (o : loc) : bool :=
  accepted (deref (heap st) o).

(** The identifier of an event, when it has one, is a string: what both
    producers build, and what the string-keyed registry of this model
    stands for. *)
Definition keyed (d : py_dict) : bool :=
  match d !! "id" with
  | Some (VStr _) | None => true
  | Some _ => false
  end.

(** A run that leaves three detections in the queue, the second one
    without an [id]. *)
Definition three_queued : list action :=
  [Start; Produce rf_first; Produce rf_without_id; Produce rf_second].

(** ** Configuration *)

#[local] Set Warnings "-inexact-float".

(** The values of a JSON document.  A [string] is read as the sequence
    of its characters.  An object carries its members as the file lists
    them; [dict_items] is the dictionary [json.load] makes of them. *)
Inductive json : Type :=
| JNull
| JBool (b : bool)
| JInt (n : Z)
| JFloat (x : float)
| JStr (s : string)
| JList (l : list json)
| JObj (o : list (string * json)).

(** [d[k] = v] on the items of a dictionary: a key that is already
    there keeps its place and takes the new value, a new key goes to
    the end. *)
Fixpoint py_dict_set (items : list (string * json)) (k : string) (v : json)
    : list (string * json) :=
  match items with
  | [] => [(k, v)]
  | (k', v') :: rest =>
      if decide (k' = k) then (k', v) :: rest
      else (k', v') :: py_dict_set rest k v
  end.

(** The items of the dictionary [json.load] builds from the members of
    an object, in the order Python iterates over them. *)
Definition dict_items (members : list (string * json)) : list (string * json) :=
  foldl (λ items kv, py_dict_set items kv.1 kv.2) [] members.

(** [d.get(k)] on that dictionary. *)
Definition dict_get (members : list (string * json)) (k : string) : option json :=
  (list_to_map (dict_items members) : gmap string json) !! k.

(** A section of the configuration, by its string keys: the only keys
    the program reads a section with. *)
Abbreviation settings := (gmap string json).

Abbreviation config_t := (gmap string (gmap string json)).

(** [default_config] of [load_config] (source lines 66 to 95). *)
Definition default_config : config_t :=
  <["sdr" := <["enabled" := JBool true]>
             (<["frequency" := JFloat 2.4e9]>
             (<["sample_rate" := JFloat 2.4e6]>
             (<["gain" := JStr "auto"]>
             (<["ppm" := JInt 0]> ∅))))]>
  (<["wifi" := <["enabled" := JBool true]>
               (<["interface" := JStr "wlan1"]>
               (<["monitor_mode" := JBool true]>
               (<["channel" := JInt 6]> ∅)))]>
  (<["detection" := <["signal_threshold" := JInt (-60)]>
                    (<["min_duration" := JInt 2]>
                    (<["update_interval" := JInt 1]> ∅))]>
  (<["map" := <["default_location" := JList [JFloat 24.7136; JFloat 46.6753]]>
              (<["default_zoom" := JInt 12]>
              (<["update_interval" := JInt 2]> ∅))]>
  (<["web" := <["host" := JStr "0.0.0.0"]>
              (<["port" := JInt 8080]>
              (<["debug" := JBool false]> ∅))]> ∅)))).

(** What leaves [load_config] when it does not return: the exception of
    [open] or [json.load], a [TypeError] or a [ValueError]. *)
Inductive config_exn : Type :=
| ReadError
| ConfigTypeError
| ConfigValueError.

(** One element of a sequence given to [dict.update]: it has to be an
    iterable of exactly two items, the key and the value.  A list gives
    its two elements, a string its two characters, a dictionary its two
    keys; a key that is a list or a dictionary cannot be hashed.  Under
    a key that is [None], a boolean or a number Python stores the value
    too; no string key is affected. *)
Definition update_item (d : settings) (item : json) : config_exn + settings :=
  match item with
  | JList [key; v] =>
      match key with
      | JStr k => inr (<[k := v]> d)
      | JList _ | JObj _ => inl ConfigTypeError
      | JNull | JBool _ | JInt _ | JFloat _ => inr d
      end
  | JList _ => inl ConfigValueError
  | JStr (String a (String b EmptyString)) =>
      inr (<[String a EmptyString := JStr (String b EmptyString)]> d)
  | JStr _ => inl ConfigValueError
  | JObj members =>
      match (dict_items members).*1 with
      | [k1; k2] => inr (<[k1 := JStr k2]> d)
      | _ => inl ConfigValueError
      end
  | JNull | JBool _ | JInt _ | JFloat _ => inl ConfigTypeError
  end.

Fixpoint update_items (d : settings) (l : list json) : config_exn + settings :=
  match l with
  | [] => inr d
  | item :: rest =>
      match update_item d item with
      | inr d' => update_items d' rest
      | inl e => inl e
      end
  end.

(** [d.update(other)] for a value read from the file: a dictionary is
    merged into [d]; a list is taken as a sequence of pairs; a string is
    a sequence of one-character strings, none of which is a pair;
    [None], a boolean or a number is not iterable. *)
Definition dict_update (d : settings) (other : json) : config_exn + settings :=
  match other with
  | JObj members =>
      inr (foldl (λ d' kv, <[kv.1 := kv.2]> d') d (dict_items members))
  | JList l => update_items d l
  | JStr EmptyString => inr d
  | JStr _ => inl ConfigValueError
  | JNull | JBool _ | JInt _ | JFloat _ => inl ConfigTypeError
  end.

(** The merging loop (source lines 101 to 103) over the items of a
    dictionary: for every key the defaults know,
    [default_config[key].update(user_config[key])]. *)
Fixpoint merge_items (items : list (string * json)) (config : config_t)
    : config_exn + config_t :=
  match items with
  | [] => inr config
  | (key, other) :: rest =>
      match config !! key with
      | Some known =>
          match dict_update known other with
          | inr merged => merge_items rest (<[key := merged]> config)
          | inl e => inl e
          end
      | None => merge_items rest config
      end
  end.

(** The same loop over the elements of a list: [key in default_config]
    hashes the element, which a list or a dictionary does not allow, and
    a known name then indexes the list with a string. *)
Fixpoint merge_elements (l : list json) (config : config_t)
    : config_exn + config_t :=
  match l with
  | [] => inr config
  | JList _ :: _ | JObj _ :: _ => inl ConfigTypeError
  | JStr key :: rest =>
      if decide (is_Some (config !! key)) then inl ConfigTypeError
      else merge_elements rest config
  | _ :: rest => merge_elements rest config
  end.

(** The one-character strings a [for] loop over a string goes through. *)
Fixpoint characters (s : string) : list json :=
  match s with
  | EmptyString => []
  | String a s' => JStr (String a EmptyString) :: characters s'
  end.

(** [for key in user_config: ...] for whatever [json.load] returned. *)
Definition merge_config (config : config_t) (user_config : json)
    : config_exn + config_t :=
  match user_config with
  | JObj members => merge_items (dict_items members) config
  | JList l => merge_elements l config
  | JStr s => merge_elements (characters s) config
  | JNull | JBool _ | JInt _ | JFloat _ => inl ConfigTypeError
  end.

(** What [load_config] finds at [config_file]: nothing
    ([os.path.exists] fails), a file that [open] or [json.load] raises
    on, or a JSON document. *)
Inductive config_file : Type :=
| Missing
| Unreadable
| Parsed (user_config : json).

(** [load_config] (source lines 64 to 105). *)
Definition load_config (file : config_file) : config_exn + config_t :=
  match file with
  | Missing => inr default_config
  | Unreadable => inl ReadError
  | Parsed user_config => merge_config default_config user_config
  end.

Definition is_object (j : json) : bool :=
  match j with
  | JObj _ => true
  | _ => false
  end.

(** [None], a boolean or a number. *)
Definition scalar (j : json) : bool :=
  match j with
  | JNull | JBool _ | JInt _ | JFloat _ => true
  | JStr _ | JList _ | JObj _ => false
  end.

(** What the file gives under the names of the default sections. *)
Definition known_sections (members : list (string * json)) : list json :=
  (filter (λ kv, is_Some (default_config !! kv.1)) (dict_items members)).*2.

(** The entry [k] the file gives in the section [key], when the file
    has that section as an object with that entry. *)
Definition file_entry (members : list (string * json)) (key k : string)
    : option json :=
  match dict_get members key with
  | Some (JObj section) => dict_get section k
  | _ => None
  end.

(** A user file that lowers the threshold, adds an entry to a known
    section and brings a section the defaults do not know. *)
Definition user_file : list (string * json) :=
  [("detection", JObj [("signal_threshold", JInt (-75)); ("cooldown", JInt 5)]);
   ("alerts", JObj [("email", JStr "ops@example.org")])].

(** A user file that gives a number where a section is expected. *)
Definition port_only_file : list (string * json) :=
  [("detection", JObj [("signal_threshold", JInt (-75))]); ("web", JInt 5)].

(** ** The Wi-Fi producer *)

(** The character [':']. *)
Definition colon : Ascii.ascii := Ascii.ascii_of_N 58.

(** [s.replace(c, '')] for a one-character [c]. *)
Fixpoint str_remove (c : Ascii.ascii) (s : string) : string :=
  match s with
  | EmptyString => EmptyString
  | String a s' => if Ascii.eqb a c then str_remove c s'
                   else String a (str_remove c s')
  end.

(** [s.lower()] on ASCII text, which is what a BSSID is. *)
Definition ascii_lower (c : Ascii.ascii) : Ascii.ascii :=
  let n := Ascii.N_of_ascii c in
  if ((65 <=? n) && (n <=? 90))%N then Ascii.ascii_of_N (n + 32) else c.

Fixpoint str_lower (s : string) : string :=
  match s with
  | EmptyString => EmptyString
  | String a s' => String (ascii_lower a) (str_lower s')
  end.

(** [s[:n]]. *)
Definition str_first (n : nat) (s : string) : string := String.substring 0 n s.

(** [known_drone_ouis] (source lines 175 to 181). *)
Definition known_drone_ouis : gmap string string :=
  <["90:3a:e6" := "DJI"]>
  (<["60:60:1f" := "DJI"]>
  (<["a0:14:3d" := "Parrot"]>
  (<["90:03:b7" := "Parrot"]>
  (<["00:12:1c" := "Yuneec"]> ∅)))).

(** What the loop reads from a captured packet; [None] stands for an
    attribute the packet does not have. *)
Record wlan_layer : Type := WlanLayer {
  wlan_bssid : option string;
  wlan_ssid : option string
}.

Record packet : Type := Packet {
  pkt_wlan : option wlan_layer;
  pkt_signal_dbm : option Z;
  pkt_channel : option Z
}.

(** A packet together with what [datetime.now().isoformat()] and
    [triangulate_wifi_position] return while it is handled. *)
Record capture : Type := Capture {
  cap_packet : packet;
  cap_timestamp : string;
  cap_location : value
}.

(** The body of the sniffing loop for one packet (source lines 187 to
    218); a missing attribute raises [AttributeError] and the loop
    continues with the next packet.  [threshold] is
    [config['detection']['signal_threshold']]. *)
Definition wifi_packet (threshold : Z) (c : capture) (st : detector) : detector :=
  match pkt_wlan (cap_packet c) with
  | None => st
  | Some wlan =>
      match wlan_bssid wlan with
      | None => st
      | Some raw =>
          let bssid := str_lower (str_remove colon raw) in
          let oui := str_first 6 bssid in
          match known_drone_ouis !! oui with
          | None => st
          | Some drone_type =>
              let ssid := default "Unknown" (wlan_ssid wlan) in
              match pkt_signal_dbm (cap_packet c) with
              | None => st
              | Some signal_strength =>
                  if decide (threshold < signal_strength)
                  then match pkt_channel (cap_packet c) with
                       | None => st
                       | Some channel =>
                           produce (wifi_detection bssid drone_type ssid
                                      signal_strength channel
                                      (cap_timestamp c) (cap_location c)) st
                       end
                  else st
              end
          end
      end
  end.

(** The sniffing loop of [start_wifi_detection]: it stops at the first
    packet that arrives when [running] is off. *)
Fixpoint start_wifi_detection (threshold : Z) (captured : list capture)
    (st : detector) : detector :=
  match captured with
  | [] => st
  | c :: rest =>
      if running st
      then start_wifi_detection threshold rest (wifi_packet threshold c st)
      else st
  end.

(** Whether a string has a given character. *)
Fixpoint mentions (c : Ascii.ascii) (s : string) : bool :=
  match s with
  | EmptyString => false
  | String a s' => Ascii.eqb a c || mentions c s'
  end.

(** A beacon of a DJI drone well above the threshold. *)
Definition dji_beacon : capture :=
  Capture (Packet (Some (WlanLayer (Some "90:3A:E6:A1:B2:C3") (Some "Mavic-Air")))
                  (Some (-40)) (Some 6))
          "2024-05-01T10:00:00.300000" near_riyadh.

(** The accepted events of a list that carry a given identifier. *)
Definition detections_of (k : string) (evs : list py_dict) : list py_dict :=
  filter (λ d, accepted d = true ∧ event_id d = Some k) evs.

(** * Properties *)

(** ** The paths of [process_detection] *)

Lemma py_last_short {A} (n : nat) (l : list A) :
  (length l ≤ n)%nat → py_last n l = l.
Proof.
  intros Hle. unfold py_last.
  replace (length l - n)%nat with 0%nat by lia. apply drop_0.
Qed.

Lemma py_last_length {A} (n : nat) (l : list A) :
  length (py_last n l) = (length l `min` n)%nat.
Proof. unfold py_last. rewrite length_drop. lia. Qed.

Lemma alter_alter {A} (f g : A → A) (i : nat) (l : list A) :
  alter f i (alter g i l) = alter (f ∘ g) i l.
Proof.
  apply list_eq. intros j. destruct (decide (i = j)) as [->|Hne].
  - rewrite !list_lookup_alter_eq. by destruct (l !! j).
  - by rewrite !list_lookup_alter_ne.
Qed.

Lemma process_detection_created st o d k ts :
  heap st !! o = Some d →
  d !! "id" = Some (VStr k) →
  d !! "timestamp" = Some ts →
  detected_drones st !! k = None →
  process_detection o st = (inr (), created k o ts st).
Proof.
  intros Ho Hid Hts Hk. run_stmt.
  rewrite Ho. simpl. rewrite Hid, Hk, Ho. simpl. rewrite Hts. simpl.
  unfold created, recorded, set_detection_history, set_stats, set_heap,
    set_detected_drones. simpl.
  case_decide.
  - simpl. f_equal. f_equal.
    rewrite !alter_alter. done.
  - simpl. f_equal. f_equal.
    + rewrite !alter_alter. done.
    + symmetry. apply py_last_short. lia.
Qed.

Lemma process_detection_updated st o d k ts r t du dc :
  heap st !! o = Some d →
  d !! "id" = Some (VStr k) →
  d !! "timestamp" = Some ts →
  detected_drones st !! k = Some r →
  heap st !! r = Some t →
  t !! "duration" = Some (VInt du) →
  t !! "detection_count" = Some (VInt dc) →
  process_detection o st = (inr (), updated o r ts du dc st).
Proof.
  intros Ho Hid Hts Hk Hr Hdu Hdc. run_stmt.
  rewrite Ho. simpl. rewrite Hid, Hk, Ho. simpl. rewrite Hts. simpl.
  rewrite !list_lookup_alter_eq, Hr. simpl.
  rewrite lookup_insert_ne, Hdu by done. simpl.
  rewrite !list_lookup_alter_eq, Hr. simpl.
  rewrite !lookup_insert_ne, Hdc by done. simpl.
  unfold updated, recorded, set_heap. simpl.
  rewrite !alter_alter.
  case_decide; simpl; unfold set_stats, set_detection_history; simpl;
    f_equal; f_equal.
  symmetry. apply py_last_short. lia.
Qed.

Lemma process_detection_dangling st o :
  heap st !! o = None → process_detection o st = (inl (KeyError "id"), st).
Proof. intros Ho. run_stmt. by rewrite Ho. Qed.

Lemma process_detection_no_id st o d :
  heap st !! o = Some d → d !! "id" = None →
  process_detection o st = (inl (KeyError "id"), st).
Proof. intros Ho Hid. run_stmt. rewrite Ho. simpl. by rewrite Hid. Qed.

Lemma process_detection_id_type st o d v :
  heap st !! o = Some d → d !! "id" = Some v → (∀ k, v ≠ VStr k) →
  process_detection o st = (inl TypeError, st).
Proof.
  intros Ho Hid Hv. run_stmt. rewrite Ho. simpl. rewrite Hid.
  destruct v; try done. by destruct (Hv s).
Qed.

Lemma process_detection_no_timestamp st o d k :
  heap st !! o = Some d → d !! "id" = Some (VStr k) →
  d !! "timestamp" = None →
  process_detection o st = (inl (KeyError "timestamp"), st).
Proof.
  intros Ho Hid Hts. run_stmt. rewrite Ho. simpl. rewrite Hid.
  destruct (detected_drones st !! k); rewrite Ho; simpl; by rewrite Hts.
Qed.

(** ** Well-formed states are kept *)

Lemma process_detection_processed st o :
  (∀ k r, detected_drones st !! k = Some r →
     ∃ t, heap st !! r = Some t ∧ track_ok k t) →
  processed st o (process_detection o st).
Proof.
  intros Htracks.
  destruct (heap st !! o) as [d|] eqn:Ho.
  2:{ rewrite process_detection_dangling by done.
      eapply processed_rejected; [by rewrite Ho|]. simpl. intros k.
      by rewrite lookup_empty. }
  destruct (d !! "id") as [v|] eqn:Hid.
  2:{ rewrite (process_detection_no_id st o d) by done.
      eapply processed_rejected; [by rewrite Ho|]. simpl. intros k. by rewrite Hid. }
  assert ((∃ k, v = VStr k) ∨ (∀ k, v ≠ VStr k)) as [[k ->]|Hv]
    by (destruct v; eauto).
  2:{ rewrite (process_detection_id_type st o d v) by done.
      eapply processed_rejected; [by rewrite Ho|]. simpl. intros k.
      rewrite Hid. intros [= ->]. by destruct (Hv k). }
  destruct (d !! "timestamp") as [ts|] eqn:Hts.
  2:{ rewrite (process_detection_no_timestamp st o d k) by done.
      eapply processed_rejected; [by rewrite Ho|]. done. }
  destruct (detected_drones st !! k) as [r|] eqn:Hk.
  - destruct (Htracks k r Hk) as (t & Hr & Hok).
    pose proof Hok as (_ & n & Hn & Hdu & Hdc).
    rewrite (process_detection_updated st o d k ts r t n n) by done.
    by eapply processed_updated.
  - rewrite (process_detection_created st o d k ts) by done.
    by eapply processed_created.
Qed.

Lemma new_track_ok k ts d :
  d !! "id" = Some (VStr k) → track_ok k (new_track ts d).
Proof.
  intros Hid. split.
  - unfold new_track. by rewrite !lookup_insert_ne.
  - exists 1. unfold new_track. split; [lia|]. split.
    + by rewrite lookup_insert_ne, lookup_insert_eq.
    + by rewrite lookup_insert_eq.
Qed.

Lemma seen_again_ok k ts n t :
  track_ok k t → t !! "duration" = Some (VInt n) →
  track_ok k (seen_again ts n n t).
Proof.
  intros (Hid & m & Hm & Hdu & Hdc) Hn.
  assert (m = n) as -> by congruence.
  split.
  - unfold seen_again. by rewrite !lookup_insert_ne.
  - exists (n + 1). unfold seen_again. split; [lia|]. split.
    + by rewrite lookup_insert_ne, lookup_insert_eq.
    + by rewrite lookup_insert_eq.
Qed.

Lemma py_last_Forall {A} (P : A → Prop) n (l : list A) :
  Forall P l → Forall P (py_last n l).
Proof. unfold py_last. apply Forall_drop. Qed.

Lemma wf_init now : wf (init now).
Proof.
  split; simpl; try done; lia.
Qed.

Lemma wf_recorded st o :
  wf st → (o < length (heap st))%nat → wf (recorded o st).
Proof.
  intros [Ht Hu Hh Hhr Hq Hm] Ho. split; simpl; try done.
  - rewrite py_last_length. lia.
  - apply py_last_Forall, Forall_app. split; [done|]. by apply Forall_singleton.
Qed.

Lemma wf_created st o d k ts :
  wf st → heap st !! o = Some d → d !! "id" = Some (VStr k) →
  wf (created k o ts st).
Proof.
  intros [Ht Hu Hh Hhr Hq Hm] Ho Hid.
  apply wf_recorded; [|simpl; rewrite length_alter; by eapply lookup_lt_Some].
  split; simpl; try done.
  - intros k' r Hk'. destruct (decide (r = o)) as [->|Hne].
    + rewrite list_lookup_alter_eq, Ho. simpl. eexists; split; [done|].
      apply new_track_ok.
      destruct (decide (k = k')) as [->|Hkk]; [done|].
      rewrite lookup_insert_ne in Hk' by done.
      destruct (Ht k' o Hk') as (t & Hot & Hid' & _). congruence.
    + rewrite list_lookup_alter_ne by done.
      destruct (decide (k = k')) as [->|Hkk].
      * rewrite lookup_insert_eq in Hk'. congruence.
      * rewrite lookup_insert_ne in Hk' by done. by apply Ht.
  - rewrite dom_insert_L. by rewrite Hu.
  - by rewrite length_alter.
  - by rewrite length_alter.
Qed.

Lemma wf_updated st o k r ts t n :
  wf st → (o < length (heap st))%nat →
  detected_drones st !! k = Some r → heap st !! r = Some t →
  t !! "duration" = Some (VInt n) →
  wf (updated o r ts n n st).
Proof.
  intros [Ht Hu Hh Hhr Hq Hm] Ho Hk Hr Hn.
  apply wf_recorded; [|simpl; by rewrite length_alter].
  split; simpl; try done.
  - intros k' r' Hk'. destruct (Ht k' r' Hk') as (t' & Hr' & Hok).
    destruct (decide (r' = r)) as [->|Hne].
    + rewrite list_lookup_alter_eq, Hr. simpl. eexists; split; [done|].
      apply seen_again_ok; [|done]. congruence.
    + rewrite list_lookup_alter_ne by done. eauto.
  - by rewrite length_alter.
  - by rewrite length_alter.
Qed.

Lemma wf_processed st o res :
  wf st → (o < length (heap st))%nat → processed st o res → wf res.2.
Proof.
  intros Hwf Ho Hres. destruct Hres; simpl.
  - done.
  - by eapply wf_created.
  - by eapply wf_updated.
Qed.

Lemma wf_process_detection st o :
  wf st → (o < length (heap st))%nat → wf (process_detection o st).2.
Proof.
  intros Hwf Ho. eapply wf_processed; [done..|].
  apply process_detection_processed, Hwf.
Qed.

Lemma loop_iteration_empty st :
  items (detection_queue st) = [] →
  loop_iteration st = (inl QueueEmpty, st).
Proof. intros Hq. run_stmt. by rewrite Hq. Qed.

Lemma loop_iteration_get st o rest :
  items (detection_queue st) = o :: rest →
  loop_iteration st = process_detection o (set_queue_items (λ _, rest) st).
Proof.
  intros Hq. unfold loop_iteration, mbind, M_bind, m_bind, detection_queue_get.
  rewrite Hq. done.
Qed.

Lemma wf_loop_iteration st : wf st → wf (loop_iteration st).2.
Proof.
  intros Hwf. destruct (items (detection_queue st)) as [|o rest] eqn:Hq.
  - by rewrite loop_iteration_empty.
  - rewrite (loop_iteration_get st o rest) by done.
    pose proof (wf_queue_refs st Hwf) as Hrefs. rewrite Hq in Hrefs.
    apply Forall_cons in Hrefs as [Ho Hrest].
    apply wf_process_detection; [|done].
    destruct Hwf. by split.
Qed.

Lemma produce_unbounded st d :
  maxsize (detection_queue st) = 0 →
  produce d st =
    Detector (heap st ++ [d]) (detected_drones st) (detection_history st)
             (running st)
             (PyQueue 0 (items (detection_queue st) ++ [length (heap st)]))
             (stats st).
Proof.
  intros Hm. unfold produce, new_dict, detection_queue_put, queue_put. simpl.
  rewrite Hm. by rewrite decide_False by lia.
Qed.

Lemma wf_produce st d : wf st → wf (produce d st).
Proof.
  intros Hwf. rewrite produce_unbounded by apply Hwf.
  destruct Hwf as [Ht Hu Hh Hhr Hq Hm]. split; simpl; try done.
  - intros k r Hk. destruct (Ht k r Hk) as (t & Hr & Hok).
    exists t. split; [|done]. rewrite lookup_app_l; [done|].
    by eapply lookup_lt_Some.
  - rewrite length_app. simpl. eapply Forall_impl; [done|]. simpl. lia.
  - rewrite length_app. simpl. apply Forall_app. split.
    + eapply Forall_impl; [done|]. simpl. lia.
    + apply Forall_singleton. lia.
Qed.

Lemma wf_exec st a : wf st → wf (exec st a).
Proof.
  intros Hwf. destruct a; simpl.
  - destruct Hwf. by split.
  - destruct Hwf. by split.
  - by apply wf_produce.
  - destruct (running st); [by apply wf_loop_iteration|done].
  - destruct Hwf. by split.
Qed.

Lemma wf_run st acts : wf st → wf (run st acts).
Proof.
  revert st. induction acts as [|a acts IH]; intros st Hwf; [done|].
  simpl. apply IH. by apply wf_exec.
Qed.

Lemma wf_reachable now acts : wf (run (init now) acts).
Proof. apply wf_run, wf_init. Qed.

(** ** Applying events *)

Lemma apply_event_unfold d st :
  apply_event d st = process_detection (length (heap st)) (allocated d st).
Proof. done. Qed.

Lemma allocated_lookup d st : heap (allocated d st) !! length (heap st) = Some d.
Proof. simpl. by rewrite lookup_app_r, Nat.sub_diag by lia. Qed.

Lemma allocated_lookup_old d st o t :
  heap st !! o = Some t → heap (allocated d st) !! o = Some t.
Proof. intros Ho. simpl. rewrite lookup_app_l; [done|]. by eapply lookup_lt_Some. Qed.

Lemma wf_allocated d st : wf st → wf (allocated d st).
Proof.
  intros [Ht Hu Hh Hhr Hq Hm]. split; simpl; try done.
  - intros k r Hk. destruct (Ht k r Hk) as (t & Hr & Hok).
    exists t. split; [|done]. by apply (allocated_lookup_old d st).
  - rewrite length_app. simpl. eapply Forall_impl; [done|]. simpl. lia.
  - rewrite length_app. simpl. eapply Forall_impl; [done|]. simpl. lia.
Qed.

Lemma wf_apply_event d st : wf st → wf (apply_event d st).2.
Proof.
  intros Hwf. rewrite apply_event_unfold.
  apply wf_process_detection; [by apply wf_allocated|].
  simpl. rewrite length_app. simpl. lia.
Qed.

Lemma wf_apply_all st evs : wf st → wf (apply_all st evs).
Proof.
  revert st. induction evs as [|d evs IH]; intros st Hwf; [done|].
  simpl. apply IH. by apply wf_apply_event.
Qed.

Lemma apply_event_created st d k ts :
  d !! "id" = Some (VStr k) →
  d !! "timestamp" = Some ts →
  detected_drones st !! k = None →
  apply_event d st = (inr (), created k (length (heap st)) ts (allocated d st)).
Proof.
  intros Hid Hts Hk. rewrite apply_event_unfold.
  by apply (process_detection_created _ _ d); [apply allocated_lookup|..].
Qed.

Lemma apply_event_updated st d k ts t du dc :
  d !! "id" = Some (VStr k) →
  d !! "timestamp" = Some ts →
  track st k = Some t →
  t !! "duration" = Some (VInt du) →
  t !! "detection_count" = Some (VInt dc) →
  ∃ r, detected_drones st !! k = Some r ∧ heap st !! r = Some t ∧
       apply_event d st =
         (inr (), updated (length (heap st)) r ts du dc (allocated d st)).
Proof.
  intros Hid Hts Ht Hdu Hdc. unfold track in Ht.
  destruct (detected_drones st !! k) as [r|] eqn:Hk; [|done]. simpl in Ht.
  exists r. split; [done|]. split; [done|]. rewrite apply_event_unfold.
  apply (process_detection_updated _ _ d k ts r t); try done.
  - apply allocated_lookup.
  - by apply allocated_lookup_old.
Qed.

Lemma track_created st d k ts :
  track (created k (length (heap st)) ts (allocated d st)) k
  = Some (new_track ts d).
Proof.
  unfold track. simpl. rewrite lookup_insert_eq. simpl.
  rewrite list_lookup_alter_eq.
  by rewrite lookup_app_r, Nat.sub_diag by lia.
Qed.

Lemma track_updated st d k o r ts du dc t :
  detected_drones st !! k = Some r → heap st !! r = Some t →
  track (updated o r ts du dc (allocated d st)) k
  = Some (seen_again ts du dc t).
Proof.
  intros Hk Hr. unfold track. simpl. rewrite Hk. simpl.
  rewrite list_lookup_alter_eq.
  rewrite lookup_app_l by (by eapply lookup_lt_Some). by rewrite Hr.
Qed.

Lemma new_track_duration ts d : new_track ts d !! "duration" = Some (VInt 1).
Proof. unfold new_track. by rewrite lookup_insert_ne, lookup_insert_eq. Qed.

Lemma new_track_detection_count ts d :
  new_track ts d !! "detection_count" = Some (VInt 1).
Proof. unfold new_track. by rewrite lookup_insert_eq. Qed.

Lemma new_track_first_seen ts d : new_track ts d !! "first_seen" = Some ts.
Proof.
  unfold new_track. rewrite !lookup_insert_ne by done. apply lookup_insert_eq.
Qed.

Lemma new_track_last_seen ts d : new_track ts d !! "last_seen" = d !! "last_seen".
Proof. unfold new_track. by rewrite !lookup_insert_ne. Qed.

Lemma seen_again_duration ts du dc t :
  seen_again ts du dc t !! "duration" = Some (VInt (du + 1)).
Proof. unfold seen_again. by rewrite lookup_insert_ne, lookup_insert_eq. Qed.

Lemma seen_again_detection_count ts du dc t :
  seen_again ts du dc t !! "detection_count" = Some (VInt (dc + 1)).
Proof. unfold seen_again. by rewrite lookup_insert_eq. Qed.

Lemma seen_again_last_seen ts du dc t :
  seen_again ts du dc t !! "last_seen" = Some ts.
Proof.
  unfold seen_again. rewrite !lookup_insert_ne by done. apply lookup_insert_eq.
Qed.

Lemma seen_again_first_seen ts du dc t :
  seen_again ts du dc t !! "first_seen" = t !! "first_seen".
Proof. unfold seen_again. by rewrite !lookup_insert_ne. Qed.

Lemma new_track_payload ts d f :
  f ∉ bookkeeping → new_track ts d !! f = d !! f.
Proof.
  intros Hf. unfold new_track.
  rewrite !lookup_insert_ne; [done|intros <-; apply Hf; unfold bookkeeping; set_solver..].
Qed.

Lemma seen_again_payload ts du dc t f :
  f ∉ bookkeeping → seen_again ts du dc t !! f = t !! f.
Proof.
  intros Hf. unfold seen_again.
  rewrite !lookup_insert_ne; [done|intros <-; apply Hf; unfold bookkeeping; set_solver..].
Qed.

(** ** Single tracks *)




Lemma created_track_fields st d k ts :
  d !! "id" = Some (VStr k) →
  d !! "timestamp" = Some ts →
  detected_drones st !! k = None →
  track (apply_event d st).2 k = Some (new_track ts d).
Proof.
  intros Hid Hts Hk. rewrite (apply_event_created st d k ts) by done.
  apply track_created.
Qed.

(** C4, at the failing input. The first event of an identifier creates
    a track with [first_seen] set to the event's timestamp and
    [detection_count = 1], but without any [last_seen] entry: only the
    updating branch (line 257) writes it. *)
Theorem C4_created_track_lacks_last_seen :
  let st := (apply_event rf_first (init 0)).2 in
  ∃ t, track st "RF_2400_1000" = Some t ∧
       t !! "first_seen" = Some (VStr "2024-05-01T10:00:00.100000") ∧
       t !! "detection_count" = Some (VInt 1) ∧
       t !! "last_seen" = None.
Proof.
  simpl. eexists. split.
  - by apply (created_track_fields _ rf_first "RF_2400_1000"
                (VStr "2024-05-01T10:00:00.100000")).
  - split; [apply new_track_first_seen|].
    split; [apply new_track_detection_count|].
    by rewrite new_track_last_seen.
Qed.

(** ** Repeated events for one identifier *)

#[global] Instance ts_le_refl : Reflexive ts_le.
Proof.
  intros a. unfold ts_le, String.leb.
  pose proof (proj2 (String_as_OT.cmp_eq a a) eq_refl) as Haa.
  unfold String_as_OT.cmp in Haa. by rewrite Haa.
Qed.

#[global] Instance ts_le_trans : Transitive ts_le.
Proof.
  intros a b c. unfold ts_le, String.leb.
  destruct (String.compare a b) eqn:Hab; [| |done].
  - apply String_as_OT.cmp_eq in Hab as ->. done.
  - destruct (String.compare b c) eqn:Hbc; [| |done]; intros _ _.
    + apply String_as_OT.cmp_eq in Hbc as <-. by rewrite Hab.
    + apply String_as_OT.cmp_lt in Hab, Hbc.
      pose proof (String_as_OT.lt_trans _ _ _ Hab Hbc) as Hac.
      apply String_as_OT.cmp_lt in Hac. unfold String_as_OT.cmp in Hac.
      by rewrite Hac.
Qed.

Lemma sorted_bounds (l : list string) (a b : string) :
  Sorted ts_le l → head l = Some a → last l = Some b →
  Forall (λ x, ts_le a x ∧ ts_le x b) l.
Proof.
  intros Hs%Sorted_StronglySorted; [|apply _]. revert a b.
  induction Hs as [|x l Hs IH Hx]; intros a b Ha Hb; [done|].
  simpl in Ha. injection Ha as ->.
  destruct l as [|y l'].
  - simpl in Hb. injection Hb as ->. by apply Forall_singleton.
  - rewrite last_cons_cons in Hb.
    specialize (IH y b eq_refl Hb).
    assert (ts_le a y) as Hay by (by apply Forall_cons in Hx as [? _]).
    assert (ts_le y b) as Hyb by (by apply Forall_cons in IH as [[_ ?] _]).
    apply Forall_cons. split.
    + split; [reflexivity|by transitivity y].
    + eapply Forall_impl; [exact IH|]. simpl. intros z [Hyz Hzb].
      split; [by transitivity y|done].
Qed.

Lemma apply_all_snoc st evs d :
  apply_all st (evs ++ [d]) = (apply_event d (apply_all st evs)).2.
Proof. unfold apply_all. by rewrite foldl_app. Qed.

(** Further events for a stored track: the counters advance together,
    [last_seen] follows the last event applied, nothing else moves. *)
Lemma repeated_events st k t n ds :
  track st k = Some t →
  t !! "duration" = Some (VInt n) →
  t !! "detection_count" = Some (VInt n) →
  Forall (λ d, has_id k d ∧ is_Some (d !! "timestamp")) ds →
  ∃ t', track (apply_all st ds) k = Some t' ∧
        t' !! "duration" = Some (VInt (n + Z.of_nat (length ds))) ∧
        t' !! "detection_count" = Some (VInt (n + Z.of_nat (length ds))) ∧
        t' !! "first_seen" = t !! "first_seen" ∧
        t' !! "last_seen"
          = from_option (λ d, d !! "timestamp") (t !! "last_seen") (last ds) ∧
        (∀ f, f ∉ bookkeeping → t' !! f = t !! f) ∧
        detected_drones (apply_all st ds) = detected_drones st.
Proof.
  intros Ht Hdu Hdc. induction ds as [|d ds IH] using rev_ind; intros Hds.
  - exists t. simpl. rewrite Z.add_0_r. done.
  - apply Forall_app in Hds as [Hds Hd].
    apply Forall_singleton in Hd as [Hid [ts Hts]].
    destruct (IH Hds) as (t' & Ht' & Hdu' & Hdc' & Hfs & Hls & Hpay & Hreg).
    destruct (apply_event_updated (apply_all st ds) d k ts t' _ _
                Hid Hts Ht' Hdu' Hdc') as (r & Hr & Hhr & Hst).
    rewrite apply_all_snoc, Hst. simpl.
    eexists. split; [by apply track_updated|].
    rewrite length_app, last_snoc. simpl.
    split; [rewrite seen_again_duration; do 2 f_equal; lia|].
    split; [rewrite seen_again_detection_count; do 2 f_equal; lia|].
    split; [by rewrite seen_again_first_seen|].
    split; [by rewrite seen_again_last_seen|].
    split; [|done].
    intros f Hf. rewrite seen_again_payload by done. by apply Hpay.
Qed.

Lemma first_then_repeated st k d ds ts :
  has_id k d → d !! "timestamp" = Some ts →
  detected_drones st !! k = None →
  Forall (λ d, has_id k d ∧ is_Some (d !! "timestamp")) ds →
  ∃ t, track (apply_all st (d :: ds)) k = Some t ∧
       t !! "duration" = Some (VInt (Z.of_nat (length (d :: ds)))) ∧
       t !! "detection_count" = Some (VInt (Z.of_nat (length (d :: ds)))) ∧
       t !! "first_seen" = Some ts ∧
       t !! "last_seen"
         = from_option (λ d, d !! "timestamp") (d !! "last_seen") (last ds) ∧
       (∀ f, f ∉ bookkeeping → t !! f = d !! f).
Proof.
  intros Hid Hts Hk Hds. simpl.
  destruct (repeated_events (apply_event d st).2 k (new_track ts d) 1 ds)
    as (t & Ht & Hdu & Hdc & Hfs & Hls & Hpay & _).
  { by apply created_track_fields. }
  { apply new_track_duration. }
  { apply new_track_detection_count. }
  { done. }
  exists t. split; [done|].
  assert (1 + Z.of_nat (length ds) = Z.of_nat (S (length ds))) as <- by lia.
  split; [done|]. split; [done|].
  split; [by rewrite Hfs, new_track_first_seen|].
  split; [by rewrite Hls, new_track_last_seen|].
  intros f Hf. rewrite Hpay by done. by apply new_track_payload.
Qed.

Lemma ts_max_le a b : ts_le a b → ts_max a b = b.
Proof. unfold ts_le, ts_max. by intros ->. Qed.

Lemma ts_min_le a b : ts_le a b → ts_min a b = a.
Proof. unfold ts_le, ts_min. by intros ->. Qed.

Lemma latest_cons x l :
  latest (x :: l) = Some (from_option (ts_max x) x (latest l)).
Proof. done. Qed.

Lemma earliest_cons x l :
  earliest (x :: l) = Some (from_option (ts_min x) x (earliest l)).
Proof. done. Qed.

Lemma sorted_latest (l : list string) : Sorted ts_le l → latest l = last l.
Proof.
  induction l as [|x l IH]; intros Hs; [done|].
  destruct l as [|y l']; [done|].
  pose proof (Sorted_inv Hs) as [Hs' _].
  rewrite latest_cons, (IH Hs').
  pose proof (sorted_bounds (x :: y :: l') x) as Hbd.
  rewrite last_cons_cons in Hbd |- *.
  destruct (last (y :: l')) as [b|] eqn:Hb; [|by apply last_None in Hb].
  simpl. specialize (Hbd b Hs eq_refl eq_refl).
  apply Forall_cons in Hbd as [[_ Hxb] _]. by rewrite ts_max_le.
Qed.

Lemma sorted_earliest (l : list string) : Sorted ts_le l → earliest l = head l.
Proof.
  induction l as [|x l IH]; intros Hs; [done|].
  destruct l as [|y l']; [done|].
  pose proof (Sorted_inv Hs) as [Hs' Hhd].
  rewrite earliest_cons, (IH Hs'). simpl.
  apply HdRel_inv in Hhd. by rewrite ts_min_le.
Qed.

Lemma Sorted_take {A} (R : relation A) (n : nat) (l : list A) :
  Sorted R l → Sorted R (take n l).
Proof.
  revert n. induction l as [|x l IH]; intros n Hs; [by destruct n|].
  destruct n as [|n]; [constructor|]. simpl.
  pose proof (Sorted_inv Hs) as [Hl Hhd]. constructor; [by apply IH|].
  destruct n; [constructor|]. destruct Hhd; simpl; by constructor.
Qed.

Lemma Forall2_last {A B} (P : A → B → Prop) l k x :
  Forall2 P l k → last l = Some x → ∃ y, last k = Some y ∧ P x y.
Proof.
  intros HF Hx. rewrite last_lookup in Hx.
  destruct (Forall2_lookup_l P l k _ x HF Hx) as (y & Hy & HP).
  exists y. split; [|done]. rewrite last_lookup.
  by rewrite <- (Forall2_length P l k HF).
Qed.

(** A run of events for one identifier the registry does not know yet. *)
Lemma same_id_sequence st k evs tss :
  Forall (has_id k) evs → Forall2 stamped evs tss →
  detected_drones st !! k = None → evs ≠ [] →
  ∃ t first,
    track (apply_all st evs) k = Some t ∧ head tss = Some first ∧
    t !! "duration" = Some (VInt (Z.of_nat (length evs))) ∧
    t !! "detection_count" = Some (VInt (Z.of_nat (length evs))) ∧
    t !! "first_seen" = Some (VStr first) ∧
    ((2 ≤ length evs)%nat →
       ∃ lst, last tss = Some lst ∧ t !! "last_seen" = Some (VStr lst)).
Proof.
  intros Hids Hts Hk Hne.
  destruct Hts as [|d t0 ds ts' Hd Hds]; [done|].
  apply Forall_cons in Hids as [Hid Hids].
  destruct (first_then_repeated st k d ds (VStr t0)) as
    (t & Ht & Hdu & Hdc & Hfs & Hls & _); [done..| |].
  { apply Forall_forall. intros e He. split.
    - by eapply (proj1 (Forall_forall _ _) Hids).
    - apply list_elem_of_lookup in He as [i Hi].
      destruct (Forall2_lookup_l _ _ _ _ _ Hds Hi) as (y & _ & Hy).
      by exists (VStr y). }
  exists t, t0. repeat (split; [done|]).
  intros Hlen. simpl in Hlen.
  destruct (last ds) as [dl|] eqn:Hdl.
  - destruct (Forall2_last _ _ _ _ Hds Hdl) as (tl & Htl & Hst).
    exists tl. split.
    + destruct ts'; [done|]. by rewrite last_cons_cons.
    + by rewrite Hls.
  - apply last_None in Hdl as ->. simpl in Hlen. lia.
Qed.

(** C5 (as amended). Applying events that carry one identifier to a
    registry that does not know it: after the first [n] of them the
    track has [detection_count = n], [first_seen] is the timestamp of
    the first event applied and, from the second event on, [last_seen]
    is the timestamp of the last event applied.  When the timestamps
    arrive in non-decreasing order these are the earliest and the latest
    timestamp applied so far and [first_seen <= last_seen]. *)
Theorem C5_same_id_first_and_last_applied
    (st : detector) (k : string) (evs : list py_dict) (tss : list string)
    (n : nat) :
  Forall (has_id k) evs →
  Forall2 stamped evs tss →
  detected_drones st !! k = None →
  (1 ≤ n ≤ length evs)%nat →
  ∃ t first,
    track (apply_all st (take n evs)) k = Some t ∧
    head tss = Some first ∧
    t !! "detection_count" = Some (VInt (Z.of_nat n)) ∧
    t !! "first_seen" = Some (VStr first) ∧
    ((2 ≤ n)%nat →
       ∃ lst, tss !! (n - 1)%nat = Some lst ∧
              t !! "last_seen" = Some (VStr lst) ∧
              (Sorted ts_le tss →
                 earliest (take n tss) = Some first ∧
                 latest (take n tss) = Some lst ∧
                 ts_le first lst)).
Proof.
  intros Hids Hts Hk Hn.
  assert (length (take n evs) = n) as Hlen by (rewrite length_take; lia).
  assert (length tss = length evs) as Hlt by (symmetry; by eapply Forall2_length).
  destruct (same_id_sequence st k (take n evs) (take n tss))
    as (t & first & Ht & Hhd & _ & Hdc & Hfs & Hls).
  { by apply Forall_take. }
  { by apply Forall2_take. }
  { done. }
  { intros Hnil. rewrite Hnil in Hlen. simpl in Hlen. lia. }
  assert (head tss = Some first) as Hhd'.
  { rewrite head_lookup in Hhd |- *. by rewrite lookup_take_lt in Hhd by lia. }
  exists t, first. split; [done|]. split; [done|].
  split; [by rewrite Hdc, Hlen|]. split; [done|].
  intros Hn2. rewrite Hlen in Hls. destruct (Hls Hn2) as (lst & Hlast & Hseen).
  exists lst.
  assert (tss !! (n - 1)%nat = Some lst) as Hnth.
  { rewrite last_lookup, length_take in Hlast.
    replace (pred (n `min` length tss)) with (n - 1)%nat in Hlast by lia.
    by rewrite lookup_take_lt in Hlast by lia. }
  split; [done|]. split; [done|].
  intros Hsorted. apply (Sorted_take _ n) in Hsorted.
  rewrite sorted_earliest, sorted_latest by done.
  split; [done|]. split; [done|].
  pose proof (sorted_bounds _ _ _ Hsorted Hhd Hlast) as Hbd.
  assert (lst ∈ take n tss) as Hin.
  { apply list_elem_of_lookup. exists (n - 1)%nat.
    rewrite lookup_take_lt by lia. done. }
  by destruct (proj1 (Forall_forall _ _) Hbd lst Hin).
Qed.

Lemma C5_witness :
  (Forall (has_id "RF_2400_1000") [rf_first; rf_second] ∧
   Forall2 stamped [rf_first; rf_second]
     ["2024-05-01T10:00:00.100000"; "2024-05-01T10:00:00.600000"] ∧
   detected_drones (init 0) !! "RF_2400_1000" = None ∧
   (1 ≤ 2 ≤ length [rf_first; rf_second])%nat) ∧
  ∃ t, track (apply_all (init 0) (take 2 [rf_first; rf_second])) "RF_2400_1000"
         = Some t ∧
       t !! "detection_count" = Some (VInt 2) ∧
       t !! "first_seen" = Some (VStr "2024-05-01T10:00:00.100000").
Proof.
  assert (Forall (has_id "RF_2400_1000") [rf_first; rf_second]) as H1
    by (repeat constructor).
  assert (Forall2 stamped [rf_first; rf_second]
            ["2024-05-01T10:00:00.100000"; "2024-05-01T10:00:00.600000"]) as H2
    by (repeat constructor).
  assert (detected_drones (init 0) !! "RF_2400_1000" = None) as H3
    by reflexivity.
  assert (1 ≤ 2 ≤ length [rf_first; rf_second])%nat as H4 by (simpl; lia).
  split; [done|].
  destruct (C5_same_id_first_and_last_applied (init 0) "RF_2400_1000"
              [rf_first; rf_second]
              ["2024-05-01T10:00:00.100000"; "2024-05-01T10:00:00.600000"]
              2%nat H1 H2 H3 H4)
    as (t & first & Ht & Hhd & Hdc & Hfs & _).
  exists t. split; [exact Ht|]. split; [exact Hdc|].
  simpl in Hhd. injection Hhd as <-. exact Hfs.
Defined.

(** C5, counterexample. With the second timestamp below the first,
    [last_seen] is the second timestamp, not the maximum, and
    [first_seen] is the first timestamp, not the minimum. *)
Lemma C5_last_seen_is_not_the_maximum :
  let tss := ["2024-05-01T10:00:00.100000"; "2024-05-01T10:00:00.050000"] in
  let st := apply_all (init 0) [rf_first; rf_clock_back] in
  track st "RF_2400_1000" ≫= (.!! "last_seen") ≠ VStr <$> latest tss ∧
  track st "RF_2400_1000" ≫= (.!! "first_seen") ≠ VStr <$> earliest tss.
Proof. vm_compute. split; intros [=]. Qed.

(** ** Accepted events *)

Lemma accepted_inv d :
  accepted d = true →
  ∃ k ts, d !! "id" = Some (VStr k) ∧ d !! "timestamp" = Some ts ∧
          event_id d = Some k.
Proof.
  unfold accepted, event_id. destruct (d !! "id") as [[]|]; try done.
  destruct (d !! "timestamp"); [|done]. eauto.
Qed.

Lemma apply_event_accepted st d :
  wf st → accepted d = true →
  ∃ k, event_id d = Some k ∧
    let st' := (apply_event d st).2 in
    (apply_event d st).1 = inr () ∧
    detection_history st'
      = py_last 1000 (detection_history st ++ [length (heap st)]) ∧
    length (heap st') = S (length (heap st)) ∧
    total_detections (stats st') = total_detections (stats st) + 1 ∧
    dom (detected_drones st') = {[k]} ∪ dom (detected_drones st).
Proof.
  intros Hwf (k & ts & Hid & Hts & Hev)%accepted_inv.
  exists k. split; [done|].
  destruct (detected_drones st !! k) as [r|] eqn:Hk.
  - destruct (wf_tracks st Hwf k r Hk) as (t & Hr & _ & n & _ & Hdu & Hdc).
    destruct (apply_event_updated st d k ts t n n) as (r' & _ & _ & ->);
      [done|done|by unfold track; rewrite Hk|done|done|].
    simpl. rewrite length_alter, length_app. simpl.
    repeat split; try done; try lia.
    apply elem_of_dom_2 in Hk. symmetry. apply subseteq_union_1_L.
    by apply singleton_subseteq_l.
  - rewrite (apply_event_created st d k ts) by done.
    simpl. rewrite length_alter, length_app. simpl.
    repeat split; try done; try lia.
    by rewrite dom_insert_L.
Qed.

Lemma py_last_snoc {A} (n : nat) (l : list A) (x : A) :
  py_last n (py_last n l ++ [x]) = py_last n (l ++ [x]).
Proof.
  destruct (decide (length l ≤ n)%nat) as [Hle|Hgt].
  - by rewrite (py_last_short n l).
  - unfold py_last. rewrite !length_app, length_drop. simpl.
    replace (length l - (length l - n) + 1 - n)%nat with 1%nat by lia.
    rewrite <- (drop_app_le l [x] (length l - n)) by lia.
    rewrite drop_drop. f_equal. lia.
Qed.

Lemma apply_all_accepted st evs :
  wf st → forallb accepted evs = true →
  let st' := apply_all st evs in
  detection_history st'
    = py_last 1000 (detection_history st ++ seq (length (heap st)) (length evs)) ∧
  length (heap st') = (length (heap st) + length evs)%nat ∧
  total_detections (stats st')
    = total_detections (stats st) + Z.of_nat (length evs) ∧
  dom (detected_drones st')
    = dom (detected_drones st) ∪ list_to_set (omap event_id evs).
Proof.
  intros Hwf. induction evs as [|d evs IH] using rev_ind; intros Hacc; simpl.
  - rewrite app_nil_r, py_last_short by apply Hwf.
    repeat split; [lia..|]. by rewrite union_empty_r_L.
  - rewrite forallb_app in Hacc. apply andb_prop in Hacc as [Hevs Hd].
    simpl in Hd. rewrite andb_true_r in Hd.
    destruct (IH Hevs) as (Hh & Hlen & Htot & Hdom).
    destruct (apply_event_accepted (apply_all st evs) d)
      as (k & Hk & _ & Hh' & Hlen' & Htot' & Hdom');
      [by apply wf_apply_all|done|].
    rewrite apply_all_snoc, length_app. simpl.
    rewrite Hh', Hlen', Htot', Hdom', Hh, Hlen, Htot, Hdom.
    rewrite py_last_snoc, <- app_assoc, seq_app. simpl.
    rewrite omap_app, list_to_set_app_L. simpl. rewrite Hk. simpl.
    repeat split; [lia..|].
    rewrite union_empty_r_L, (comm_L (∪) {[k]}), (assoc_L (∪)). done.
Qed.

(** ** The object store keeps the payload of every event *)

Lemma payload_alter (g : py_dict → py_dict) (o : nat) (h : list py_dict) :
  (∀ d, same_payload d (g d)) → Forall2 same_payload h (alter g o h).
Proof.
  intros Hg. apply Forall2_same_length_lookup. split; [by rewrite length_alter|].
  intros i d t Hd Ht. destruct (decide (o = i)) as [->|Hne].
  - rewrite list_lookup_alter_eq, Hd in Ht. injection Ht as <-. apply Hg.
  - rewrite list_lookup_alter_ne in Ht by done.
    assert (d = t) as -> by congruence. by intros f _.
Qed.

Lemma payload_processed st o res :
  processed st o res → Forall2 same_payload (heap st) (heap res.2).
Proof.
  intros []; simpl.
  - apply Forall2_same_length_lookup. split; [done|].
    intros i d1 d2 H1 H2. assert (d1 = d2) as -> by congruence. by intros f _.
  - apply payload_alter. intros d' f Hf. by apply new_track_payload.
  - apply payload_alter. intros d' f Hf. by apply seen_again_payload.
Qed.

Lemma same_payload_trans d t u :
  same_payload d t → same_payload t u → same_payload d u.
Proof. intros H1 H2 f Hf. by rewrite H2, H1. Qed.

Lemma payload_apply_event st d :
  wf st → Forall2 same_payload (heap st ++ [d]) (heap (apply_event d st).2).
Proof.
  intros Hwf. rewrite apply_event_unfold.
  apply (payload_processed (allocated d st) (length (heap st))).
  apply process_detection_processed. apply wf_allocated, Hwf.
Qed.

Lemma payload_apply_all st evs :
  wf st → Forall2 same_payload (heap st ++ evs) (heap (apply_all st evs)).
Proof.
  intros Hwf. induction evs as [|d evs IH] using rev_ind.
  - rewrite app_nil_r. simpl.
    apply Forall2_same_length_lookup. split; [done|].
    intros i d1 d2 H1 H2. assert (d1 = d2) as -> by congruence. by intros f _.
  - rewrite apply_all_snoc, app_assoc.
    pose proof (payload_apply_event (apply_all st evs) d (wf_apply_all _ _ Hwf)) as Hd.
    apply Forall2_same_length_lookup. split.
    + rewrite <- (Forall2_length _ _ _ Hd), !length_app.
      by rewrite <- (Forall2_length _ _ _ IH), length_app.
    + intros i d1 d2 H1 H2.
      destruct (Forall2_lookup_r _ _ _ _ _ Hd H2) as (m & Hm & Hmd).
      eapply same_payload_trans; [|exact Hmd].
      destruct (decide (i < length (heap st ++ evs))%nat) as [Hlt|Hge].
      * rewrite lookup_app_l in H1 by done.
        rewrite lookup_app_l in Hm
          by (by rewrite <- (Forall2_length _ _ _ IH)).
        exact (Forall2_lookup_lr _ _ _ _ _ _ IH H1 Hm).
      * rewrite lookup_app_r in H1 by lia.
        rewrite lookup_app_r in Hm
          by (rewrite <- (Forall2_length _ _ _ IH); lia).
        rewrite <- (Forall2_length _ _ _ IH) in Hm.
        assert (d1 = m) as -> by congruence. by intros f _.
Qed.

(** ** The history log *)

(** C6. After 1001 accepted events on a fresh detector the history holds
    exactly 1000 entries: the objects of events 2 to 1001 (store
    indices 1 to 1000) in the order they were appended, and not the
    object of the first event (index 0); object [i] carries the payload
    of the [i]-th event. *)
Theorem C6_history_keeps_newest_1000 (now : Z) (evs : list py_dict) :
  length evs = 1001%nat →
  forallb accepted evs = true →
  let st := apply_all (init now) evs in
  detection_history st = seq 1 1000 ∧
  length (detection_history st) = 1000%nat ∧
  (0%nat ∉ detection_history st) ∧
  ∀ i d, evs !! i = Some d → ∃ t, heap st !! i = Some t ∧ same_payload d t.
Proof.
  intros Hlen Hacc st.
  destruct (apply_all_accepted (init now) evs (wf_init now) Hacc)
    as (Hh & _ & _ & _).
  fold st in Hh. rewrite Hlen in Hh. simpl length in Hh.
  assert (detection_history st = seq 1 1000) as Hseq.
  { rewrite Hh. vm_compute. reflexivity. }
  split; [done|]. rewrite Hseq. split; [by rewrite length_seq|].
  split; [rewrite elem_of_seq; lia|].
  intros i d Hd.
  pose proof (payload_apply_all (init now) evs (wf_init now)) as Hpay.
  simpl in Hpay. fold st in Hpay.
  destruct (Forall2_lookup_l _ _ _ _ _ Hpay Hd) as (t & Ht & Hdt). eauto.
Qed.

Lemma C6_witness :
  (length (rf_burst 1001) = 1001%nat ∧
   forallb accepted (rf_burst 1001) = true) ∧
  detection_history (apply_all (init 0) (rf_burst 1001)) = seq 1 1000.
Proof.
  assert (length (rf_burst 1001) = 1001%nat) as H1 by (vm_compute; reflexivity).
  assert (forallb accepted (rf_burst 1001) = true) as H2
    by (vm_compute; reflexivity).
  split; [exact (conj H1 H2)|].
  exact (proj1 (C6_history_keeps_newest_1000 0 (rf_burst 1001) H1 H2)).
Defined.

(** ** Exports *)





(** ** Malformed events *)

Lemma process_detection_malformed st o d :
  heap st !! o = Some d → malformed d →
  ∃ e, process_detection o st = (inl e, st).
Proof.
  intros Ho Hbad. destruct (d !! "id") as [v|] eqn:Hid.
  - destruct Hbad as [Hnone|Hts]; [congruence|].
    assert ((∃ k, v = VStr k) ∨ (∀ k, v ≠ VStr k)) as [[k ->]|Hv]
      by (destruct v; eauto).
    + exists (KeyError "timestamp"). by eapply process_detection_no_timestamp.
    + exists TypeError. by eapply process_detection_id_type.
  - exists (KeyError "id"). by eapply process_detection_no_id.
Qed.

(** C8 (as amended). When the consumer loop dequeues a malformed event
    the [try] block raises and the matching [except] clause prints a
    message: store, registry, history and statistics are as before, the
    event is gone from the queue, no counter is kept, and the loop goes
    on with the rest of the queue. *)
Theorem C8_malformed_event_is_skipped
    (st : detector) (o : nat) (rest : list nat) (d : py_dict) (n : nat) :
  running st = true →
  items (detection_queue st) = o :: rest →
  heap st !! o = Some d →
  malformed d →
  let res := loop_iteration st in
  (∃ e, res.1 = inl e) ∧
  attributes res.2 = attributes st ∧
  items (detection_queue res.2) = rest ∧
  process_detections (S n) st = process_detections n res.2.
Proof.
  intros Hrun Hq Ho Hbad res.
  assert (∃ e, res = (inl e, set_queue_items (λ _, rest) st)) as [e Hres].
  { unfold res. rewrite (loop_iteration_get st o rest Hq).
    by apply (process_detection_malformed _ o d). }
  split; [exists e; by rewrite Hres|].
  split; [by rewrite Hres|]. split; [by rewrite Hres|].
  simpl. by rewrite Hrun.
Qed.

Lemma C8_witness :
  let st := produce rf_second (produce rf_without_id (set_running true (init 0))) in
  (running st = true ∧ items (detection_queue st) = [0; 1]%nat ∧
   heap st !! 0%nat = Some rf_without_id ∧ malformed rf_without_id) ∧
  process_detections 2 st = process_detections 1 (loop_iteration st).2 ∧
  items (detection_queue (loop_iteration st).2) = [1%nat].
Proof.
  intros st.
  assert (running st = true) as H1 by reflexivity.
  assert (items (detection_queue st) = [0; 1]%nat) as H2 by reflexivity.
  assert (heap st !! 0%nat = Some rf_without_id) as H3 by reflexivity.
  assert (malformed rf_without_id) as H4 by (left; reflexivity).
  split; [exact (conj H1 (conj H2 (conj H3 H4)))|].
  destruct (C8_malformed_event_is_skipped st 0 [1%nat] rf_without_id 1 H1 H2 H3 H4)
    as (_ & _ & Hq & Hloop).
  exact (conj Hloop Hq).
Defined.

(** C8, counterexample. Dequeuing a malformed event raises [KeyError]
    and leaves every attribute of the detector as it was: there is no
    rejection counter that could have been incremented. *)
Lemma C8_no_rejection_counter :
  let st := produce rf_without_id (set_running true (init 0)) in
  let res := loop_iteration st in
  res.1 = inl (KeyError "id") ∧
  ∀ counter : _ → Z, counter (attributes res.2) ≠ counter (attributes st) + 1.
Proof.
  intros st res.
  assert (res = (inl (KeyError "id"), set_queue_items (λ _, []) st)) as ->
    by (vm_compute; reflexivity).
  split; [reflexivity|]. intros counter.
  change (attributes (inl (KeyError "id"), set_queue_items (λ _, []) st).2)
    with (attributes st). lia.
Qed.

(** ** Invariants of every run *)

Lemma processed_registry st o res :
  processed st o res → dom (detected_drones st) ⊆ dom (detected_drones res.2).
Proof.
  intros []; simpl; [done| |done].
  rewrite dom_insert_L. apply union_subseteq_r.
Qed.

Lemma registry_grows st a :
  wf st → dom (detected_drones st) ⊆ dom (detected_drones (exec st a)).
Proof.
  intros Hwf. destruct a; simpl; try done.
  - by rewrite produce_unbounded by apply Hwf.
  - destruct (running st); [|done].
    destruct (items (detection_queue st)) as [|o rest] eqn:Hq.
    + by rewrite loop_iteration_empty.
    + rewrite (loop_iteration_get st o rest Hq).
      apply (processed_registry (set_queue_items (λ _, rest) st) o).
      apply process_detection_processed. apply Hwf.
Qed.

(** C10. In every state the system reaches, the registry has as many
    tracks as [unique_drones] has members, so the figure printed as
    active drones equals the one printed as unique drones; and no action
    takes an identifier out of the registry. *)
Theorem C10_registry_size_is_unique_count
    (now : Z) (acts : list action) (a : action) :
  let st := run (init now) acts in
  size (detected_drones st) = size (unique_drones (stats st)) ∧
  active_drones (report st) = reported_unique (report st) ∧
  dom (detected_drones st) ⊆ dom (detected_drones (exec st a)).
Proof.
  intros st. pose proof (wf_reachable now acts) as Hwf. fold st in Hwf.
  assert (size (detected_drones st) = size (unique_drones (stats st))) as Hsz.
  { by rewrite <- (wf_unique st Hwf), size_dom. }
  split; [done|]. split; [done|]. by apply registry_grows.
Qed.

(** ** The queue never refuses *)

Lemma produce_many_length st ds :
  wf st →
  length (items (detection_queue (run st (Produce <$> ds))))
  = (length (items (detection_queue st)) + length ds)%nat.
Proof.
  revert st. induction ds as [|d ds IH]; intros st Hwf; simpl; [lia|].
  rewrite IH by (by apply wf_produce).
  rewrite produce_unbounded by apply Hwf. simpl. rewrite length_app. simpl. lia.
Qed.

(** C2 (as amended). The detection queue is created without a
    capacity: in every state the system reaches [put] succeeds at once
    and appends the item, whatever the queue holds; it neither waits nor
    reports backpressure, and the queue length is unbounded. *)
Theorem C2_put_always_succeeds
    (now : Z) (acts : list action) (item : nat) (d : py_dict) (ds : list py_dict) :
  let st := run (init now) acts in
  queue_put (detection_queue st) item
    = PutDone (PyQueue 0 (items (detection_queue st) ++ [item])) ∧
  items (detection_queue (exec st (Produce d)))
    = items (detection_queue st) ++ [length (heap st)] ∧
  length (items (detection_queue (run st (Produce <$> ds))))
    = (length (items (detection_queue st)) + length ds)%nat.
Proof.
  intros st. pose proof (wf_reachable now acts) as Hwf. fold st in Hwf.
  pose proof (wf_maxsize st Hwf) as Hm.
  split; [|split].
  - unfold queue_put. rewrite Hm. by rewrite decide_False by lia.
  - simpl. by rewrite produce_unbounded.
  - by apply produce_many_length.
Qed.

(** C2, counterexample. No capacity bounds the queue: producers that
    are not drained make it as long as they like. *)
Lemma C2_no_capacity_bounds_the_queue :
  ¬ ∃ C : nat, ∀ ds : list py_dict,
      (length (items (detection_queue (run (init 0) (Produce <$> ds)))) ≤ C)%nat.
Proof.
  intros [C HC]. specialize (HC (replicate (S C) rf_first)).
  rewrite produce_many_length in HC by apply wf_init.
  rewrite length_replicate in HC. simpl in HC. lia.
Qed.

(** ** The registry only grows *)

Lemma processed_queue st o res :
  processed st o res →
  detection_queue res.2 = detection_queue st ∧ running res.2 = running st.
Proof. by intros []. Qed.

Lemma apply_event_queue st d :
  wf st →
  detection_queue (apply_event d st).2 = detection_queue st ∧
  running (apply_event d st).2 = running st.
Proof.
  intros Hwf. rewrite apply_event_unfold.
  apply (processed_queue (allocated d st) (length (heap st))).
  apply process_detection_processed. apply wf_allocated, Hwf.
Qed.

Lemma consume_produce st d :
  detection_queue st = PyQueue 0 [] → running st = true →
  exec (exec st (Produce d)) Consume = (apply_event d st).2.
Proof.
  intros Hq Hrun.
  assert (maxsize (detection_queue st) = 0) as Hm by (rewrite Hq; reflexivity).
  simpl. rewrite (produce_unbounded st d Hm). simpl. rewrite Hrun, Hq.
  erewrite loop_iteration_get by done.
  rewrite apply_event_unfold. f_equal.
  unfold set_queue_items, allocated, set_heap. simpl. by rewrite Hq, Hrun.
Qed.

Lemma run_churn st evs :
  wf st → detection_queue st = PyQueue 0 [] → running st = true →
  run st (churn evs) = apply_all st evs.
Proof.
  revert st. induction evs as [|d evs IH]; intros st Hwf Hq Hrun; [done|].
  change (run st (churn (d :: evs)))
    with (run (exec (exec st (Produce d)) Consume) (churn evs)).
  rewrite consume_produce by done.
  destruct (apply_event_queue st d Hwf) as [Hq' Hrun'].
  apply IH; [by apply wf_apply_event|by rewrite Hq'|by rewrite Hrun'].
Qed.

Lemma distinct_ids_distinct_tracks st evs :
  wf st → forallb accepted evs = true → NoDup (omap event_id evs) →
  detected_drones st = ∅ →
  size (detected_drones (apply_all st evs)) = length evs.
Proof.
  intros Hwf Hacc Hnd Hempty.
  destruct (apply_all_accepted st evs Hwf Hacc) as (_ & _ & _ & Hdom).
  rewrite <- size_dom, Hdom, Hempty, dom_empty_L, union_empty_l_L.
  rewrite size_list_to_set by done.
  clear -Hacc. induction evs as [|d evs IH]; [done|].
  simpl in Hacc. apply andb_prop in Hacc as [Hd Hevs].
  apply accepted_inv in Hd as (k & ts & _ & _ & Hk).
  simpl. rewrite Hk. simpl. f_equal. by apply IH.
Qed.

(** C3 (as amended). The program has no idle sweep and no eviction:
    the periodic tick leaves the registry untouched, no action takes an
    identifier out of it, and after a stream of accepted events with
    pairwise distinct identifiers, each consumed as it arrives, the
    registry holds one track per event. *)
Theorem C3_registry_never_shrinks
    (now t : Z) (acts : list action) (a : action) (evs : list py_dict) :
  forallb accepted evs = true →
  NoDup (omap event_id evs) →
  let st := run (init now) acts in
  detected_drones (exec st (Tick t)) = detected_drones st ∧
  dom (detected_drones st) ⊆ dom (detected_drones (exec st a)) ∧
  size (detected_drones (run (init now) (Start :: churn evs))) = length evs.
Proof.
  intros Hacc Hnd st. split; [done|]. split.
  - apply registry_grows, wf_reachable.
  - change (run (init now) (Start :: churn evs))
      with (run (set_running true (init now)) (churn evs)).
    assert (wf (set_running true (init now))) as Hwf
      by apply (wf_exec (init now) Start), wf_init.
    rewrite run_churn by done.
    by apply distinct_ids_distinct_tracks.
Qed.

Lemma rf_at_accepted epoch : accepted (rf_at epoch) = true.
Proof. reflexivity. Qed.

Lemma rf_at_event_id epoch : event_id (rf_at epoch) = Some (rf_id 2400 epoch).
Proof. reflexivity. Qed.

#[global] Instance rf_id_inj mhz : Inj (=) (=) (rf_id mhz).
Proof.
  intros e1 e2 Heq. unfold rf_id in Heq.
  apply (inj (String.app "RF_")) in Heq.
  apply (inj (String.app (pretty mhz))) in Heq.
  apply (inj (String.app "_")) in Heq.
  by apply (inj pretty) in Heq.
Qed.

Lemma rf_burst_accepted n : forallb accepted (rf_burst n) = true.
Proof.
  unfold rf_burst. induction (seq 0 n) as [|i l IH]; [done|].
  rewrite fmap_cons. change (forallb accepted (?x :: ?l))
    with (accepted x && forallb accepted l).
  by rewrite rf_at_accepted, IH.
Qed.

Lemma rf_burst_ids n :
  omap event_id (rf_burst n) = (λ i, rf_id 2400 (Z.of_nat i)) <$> seq 0 n.
Proof.
  unfold rf_burst. induction (seq 0 n) as [|i l IH]; [done|].
  rewrite !fmap_cons, <- IH.
  change (omap event_id (?x :: ?l))
    with (from_option (λ k, k :: omap event_id l) (omap event_id l) (event_id x)).
  by rewrite rf_at_event_id.
Qed.

Lemma rf_burst_distinct n : NoDup (omap event_id (rf_burst n)).
Proof.
  rewrite rf_burst_ids. apply NoDup_fmap_2; [|apply NoDup_seq].
  intros i j Hij. apply (inj (rf_id 2400)) in Hij. lia.
Qed.

Lemma C3_witness :
  (forallb accepted (rf_burst 3) = true ∧ NoDup (omap event_id (rf_burst 3))) ∧
  size (detected_drones (run (init 0) (Start :: churn (rf_burst 3)))) = 3%nat.
Proof.
  assert (forallb accepted (rf_burst 3) = true) as H1 by reflexivity.
  assert (NoDup (omap event_id (rf_burst 3))) as H2
    by (apply (bool_decide_unpack _); vm_compute; reflexivity).
  split; [exact (conj H1 H2)|].
  exact (proj2 (proj2 (C3_registry_never_shrinks 0 1 [] Start (rf_burst 3) H1 H2))).
Defined.

(** C3, counterexample. No bound holds for the size of the registry:
    SDR detections of distinct seconds carry distinct identifiers, and
    each one adds a track that is never removed. *)
Lemma C3_registry_grows_without_bound :
  ¬ ∃ bound : nat, ∀ acts : list action,
      (size (detected_drones (run (init 0) acts)) ≤ bound)%nat.
Proof.
  intros [bound Hb].
  specialize (Hb (Start :: churn (rf_burst (S bound)))).
  change (run (init 0) (Start :: churn (rf_burst (S bound))))
    with (run (set_running true (init 0)) (churn (rf_burst (S bound)))) in Hb.
  assert (wf (set_running true (init 0))) as Hwf
    by apply (wf_exec (init 0) Start), wf_init.
  rewrite run_churn in Hb by done.
  rewrite distinct_ids_distinct_tracks in Hb;
    [|done|apply rf_burst_accepted|apply rf_burst_distinct|done].
  unfold rf_burst in Hb. rewrite length_fmap, length_seq in Hb. lia.
Qed.

(** ** An induction principle for reachable states *)

Lemma wf_with_queue st q :
  wf st → maxsize q = 0 →
  Forall (λ o, o < length (heap st))%nat (items q) →
  wf (with_queue q st).
Proof. intros [Ht Hu Hh Hhr Hq Hm] Hmq Hrefs. by split. Qed.

Lemma produce_with_queue st d :
  maxsize (detection_queue st) = 0 →
  produce d st
  = with_queue (PyQueue 0 (items (detection_queue st) ++ [length (heap st)]))
               (allocated d st).
Proof. intros Hm. by rewrite produce_unbounded. Qed.

(** A property of states that holds initially and is kept by every
    elementary change holds in every reachable state. *)
Lemma reachable_ind (P : detector → Prop) :
  (∀ now, P (init now)) →
  (∀ st b, P st → P (set_running b st)) →
  (∀ st now, P st → P (tick now st)) →
  (∀ st d, wf st → P st → P (allocated d st)) →
  (∀ st q, wf st → P st → P (with_queue q st)) →
  (∀ st o d k ts, wf st → P st →
     heap st !! o = Some d → d !! "id" = Some (VStr k) →
     d !! "timestamp" = Some ts → detected_drones st !! k = None →
     P (created k o ts st)) →
  (∀ st o d k ts r t n, wf st → P st →
     heap st !! o = Some d → d !! "id" = Some (VStr k) →
     d !! "timestamp" = Some ts → detected_drones st !! k = Some r →
     heap st !! r = Some t → track_ok k t →
     t !! "duration" = Some (VInt n) → t !! "detection_count" = Some (VInt n) →
     P (updated o r ts n n st)) →
  ∀ now acts, P (run (init now) acts).
Proof.
  intros Hinit Hrun Htick Halloc Hqueue Hcreated Hupdated now acts.
  assert (∀ st, wf st → P st → wf (run st acts) ∧ P (run st acts)) as Hgen.
  { induction acts as [|a acts IH]; intros st Hwf HP; [done|].
    simpl. apply IH; [by apply wf_exec|].
    destruct a; simpl.
    - by apply Hrun.
    - by apply Hrun.
    - rewrite produce_with_queue by apply Hwf.
      apply Hqueue; [by apply wf_allocated|]. by apply Halloc.
    - destruct (running st); [|done].
      destruct (items (detection_queue st)) as [|o rest] eqn:Hq.
      { by rewrite loop_iteration_empty. }
      rewrite (loop_iteration_get st o rest Hq).
      pose proof (wf_queue_refs st Hwf) as Hrefs. rewrite Hq in Hrefs.
      apply Forall_cons in Hrefs as [Ho Hrest].
      set (st1 := set_queue_items (λ _, rest) st).
      assert (wf st1) as Hwf1 by (destruct Hwf; by split).
      assert (P st1) as HP1 by (by apply (Hqueue st)).
      destruct (process_detection_processed st1 o (wf_tracks st1 Hwf1)); simpl.
      + done.
      + by eapply Hcreated.
      + by eapply Hupdated.
    - by apply Htick. }
  apply Hgen; [apply wf_init|apply Hinit].
Qed.

(** ** History length and track stamps *)

Lemma history_length_reachable now acts :
  let st := run (init now) acts in
  Z.of_nat (length (detection_history st))
  = Z.min (total_detections (stats st)) 1000.
Proof.
  apply (reachable_ind (λ st, Z.of_nat (length (detection_history st))
                              = Z.min (total_detections (stats st)) 1000));
    try done.
  - intros st o d k ts _ IH _ _ _ _. simpl in *.
    rewrite py_last_length, length_app. simpl. lia.
  - intros st o d k ts r t n _ IH _ _ _ _ _ _ _ _. simpl in *.
    rewrite py_last_length, length_app. simpl. lia.
Qed.

Lemma new_track_stamps ts d :
  d !! "timestamp" = Some ts → track_stamps (new_track ts d).
Proof.
  intros Hts. split.
  - exists ts. split; [|apply new_track_first_seen].
    unfold new_track. by rewrite !lookup_insert_ne.
  - intros n Hn Hle. rewrite new_track_detection_count in Hn.
    injection Hn as <-. lia.
Qed.

Lemma seen_again_stamps ts du dc t :
  track_stamps t → track_stamps (seen_again ts du dc t).
Proof.
  intros [(ts0 & Hts & Hfs) _]. split.
  - exists ts0. split; [|by rewrite seen_again_first_seen].
    unfold seen_again. by rewrite !lookup_insert_ne.
  - intros n _ _. rewrite seen_again_last_seen. by eexists.
Qed.

Lemma track_stamps_reachable now acts k r t :
  let st := run (init now) acts in
  detected_drones st !! k = Some r → heap st !! r = Some t → track_stamps t.
Proof.
  intros st. revert k r t. unfold st. clear st.
  apply (reachable_ind (λ st, ∀ k r t, detected_drones st !! k = Some r →
                                heap st !! r = Some t → track_stamps t)).
  - intros now' k r t. simpl. by rewrite lookup_empty.
  - done.
  - done.
  - intros st d Hwf IH k r t Hk Hr. simpl in Hk, Hr.
    destruct (wf_tracks st Hwf k r Hk) as (t' & Hr' & _).
    rewrite lookup_app_l in Hr by (by eapply lookup_lt_Some). eauto.
  - done.
  - intros st o d k ts _ IH Ho Hid Hts Hnone k' r t Hk Hr. simpl in Hk, Hr.
    destruct (decide (r = o)) as [->|Hne].
    + rewrite list_lookup_alter_eq, Ho in Hr. injection Hr as <-.
      by apply new_track_stamps.
    + rewrite list_lookup_alter_ne in Hr by done.
      destruct (decide (k = k')) as [->|Hkk].
      * rewrite lookup_insert_eq in Hk. congruence.
      * rewrite lookup_insert_ne in Hk by done. eauto.
  - intros st o d k ts r t n _ IH Ho Hid Hts Hk Hr _ _ _ k' r' t' Hk' Hr'.
    simpl in Hk', Hr'. destruct (decide (r' = r)) as [->|Hne].
    + rewrite list_lookup_alter_eq, Hr in Hr'. injection Hr' as <-.
      apply seen_again_stamps. eauto.
    + rewrite list_lookup_alter_ne in Hr' by done. eauto.
Qed.

(** ** How the served registry changes *)

Lemma tracks_lookup st k :
  tracks st !! k = deref (heap st) <$> detected_drones st !! k.
Proof. unfold tracks. by rewrite lookup_fmap. Qed.

Lemma tracks_track st k t :
  wf st → tracks st !! k = Some t ↔ track st k = Some t.
Proof.
  intros Hwf. rewrite tracks_lookup. unfold track, deref.
  destruct (detected_drones st !! k) as [r|] eqn:Hk; simpl; [|done].
  destruct (wf_tracks st Hwf k r Hk) as (t' & -> & _). done.
Qed.

Lemma tracks_allocated st d : wf st → tracks (allocated d st) = tracks st.
Proof.
  intros Hwf. apply map_eq. intros k. rewrite !tracks_lookup. simpl.
  destruct (detected_drones st !! k) as [r|] eqn:Hk; simpl; [|done].
  destruct (wf_tracks st Hwf k r Hk) as (t & Hr & _).
  unfold deref. rewrite lookup_app_l by (by eapply lookup_lt_Some). done.
Qed.

Lemma tracks_created st o d k ts :
  wf st → heap st !! o = Some d → d !! "id" = Some (VStr k) →
  detected_drones st !! k = None →
  tracks (created k o ts st) = <[k := new_track ts d]> (tracks st).
Proof.
  intros Hwf Ho Hid Hk. apply map_eq. intros k'.
  rewrite tracks_lookup. simpl.
  destruct (decide (k = k')) as [<-|Hne].
  - rewrite !lookup_insert_eq. simpl. unfold deref.
    by rewrite list_lookup_alter_eq, Ho.
  - rewrite !lookup_insert_ne by done. rewrite tracks_lookup.
    destruct (detected_drones st !! k') as [r|] eqn:Hk'; simpl; [|done].
    destruct (wf_tracks st Hwf k' r Hk') as (t & Hr & Hidt & _).
    unfold deref. rewrite list_lookup_alter_ne; [done|].
    intros <-. congruence.
Qed.

Lemma tracks_updated st o k r t ts du dc :
  wf st → detected_drones st !! k = Some r → heap st !! r = Some t →
  tracks (updated o r ts du dc st)
  = <[k := seen_again ts du dc t]> (tracks st).
Proof.
  intros Hwf Hk Hr. apply map_eq. intros k'.
  rewrite tracks_lookup. simpl.
  destruct (decide (k = k')) as [<-|Hne].
  - rewrite lookup_insert_eq, Hk. simpl. unfold deref.
    by rewrite list_lookup_alter_eq, Hr.
  - rewrite lookup_insert_ne by done. rewrite tracks_lookup.
    destruct (detected_drones st !! k') as [r'|] eqn:Hk'; simpl; [|done].
    destruct (wf_tracks st Hwf k' r' Hk') as (t' & Hr' & Hidt' & _).
    destruct (wf_tracks st Hwf k r Hk) as (t0 & Hr0 & Hidt & _).
    unfold deref. rewrite list_lookup_alter_ne; [done|].
    intros <-. congruence.
Qed.

Lemma sum_tracks_insert_fresh (m : gmap string py_dict) k t :
  m !! k = None → sum_tracks (<[k := t]> m) = detection_count_of t + sum_tracks m.
Proof.
  intros Hk. unfold sum_tracks.
  rewrite map_fold_insert_L; [done| |done]. intros. lia.
Qed.

Lemma sum_tracks_insert (m : gmap string py_dict) k t t' :
  m !! k = Some t →
  sum_tracks (<[k := t']> m)
  = sum_tracks m - detection_count_of t + detection_count_of t'.
Proof.
  intros Hk.
  rewrite <- (insert_delete_eq m k t').
  rewrite sum_tracks_insert_fresh by apply lookup_delete_eq.
  rewrite <- (insert_id m k t Hk) at 2.
  rewrite <- (insert_delete_eq m k t).
  rewrite sum_tracks_insert_fresh by apply lookup_delete_eq. lia.
Qed.

Lemma total_is_sum_reachable now acts :
  let st := run (init now) acts in
  total_detections (stats st) = sum_tracks (tracks st).
Proof.
  apply (reachable_ind (λ st, total_detections (stats st)
                              = sum_tracks (tracks st))).
  - done.
  - done.
  - done.
  - intros st d Hwf IH. by rewrite tracks_allocated.
  - done.
  - intros st o d k ts Hwf IH Ho Hid Hts Hk.
    rewrite (tracks_created st o d k ts) by done.
    rewrite sum_tracks_insert_fresh by (rewrite tracks_lookup; by rewrite Hk).
    unfold detection_count_of. rewrite new_track_detection_count.
    simpl. lia.
  - intros st o d k ts r t n Hwf IH Ho Hid Hts Hk Hr _ Hdu Hdc.
    rewrite (tracks_updated st o k r t) by done.
    rewrite (sum_tracks_insert _ k t)
      by (rewrite tracks_lookup, Hk; simpl; unfold deref; by rewrite Hr).
    assert (detection_count_of t = n) as ->
      by (unfold detection_count_of; by rewrite Hdc).
    assert (detection_count_of (seen_again ts n n t) = n + 1) as ->
      by (unfold detection_count_of; by rewrite seen_again_detection_count).
    simpl. lia.
Qed.

(** ** The consumer loop on any queue *)

Lemma accepted_payload d t : same_payload d t → accepted t = accepted d.
Proof.
  intros Hp. unfold accepted.
  rewrite (Hp "id") by compute_done. by rewrite (Hp "timestamp") by compute_done.
Qed.

Lemma deref_payload h h' o :
  Forall2 same_payload h h' → same_payload (deref h o) (deref h' o).
Proof.
  intros HF. unfold deref. destruct (h !! o) as [d|] eqn:Hd.
  - destruct (Forall2_lookup_l _ _ _ _ _ HF Hd) as (t & -> & Hdt). done.
  - apply lookup_ge_None in Hd. rewrite (Forall2_length _ _ _ HF) in Hd.
    apply lookup_ge_None in Hd. rewrite Hd. by intros f _.
Qed.

Lemma processed_accepted_at st o res o' :
  processed st o res →
  accepted_at res.2 o' = accepted_at st o'.
Proof.
  intros Hres. unfold accepted_at. apply accepted_payload, deref_payload.
  by apply (payload_processed st o).
Qed.

Lemma processed_outcome st o res :
  processed st o res →
  (accepted_at st o = true ∧ res.1 = inr () ∧
   detection_history res.2 = py_last 1000 (detection_history st ++ [o]) ∧
   total_detections (stats res.2) = total_detections (stats st) + 1 ∧
   detection_queue res.2 = detection_queue st ∧ running res.2 = running st) ∨
  (accepted_at st o = false ∧ (∃ e, res.1 = inl e) ∧ res.2 = st).
Proof.
  intros [e d Hd Hbad|d k ts Ho Hid Hts Hk|d k ts r t n Ho Hid Hts Hk Hr Hok Hn Hdu Hdc].
  - right. split; [|by eauto]. unfold accepted_at, deref, accepted.
    rewrite Hd. destruct (d !! "id") as [[]|] eqn:Hid; try done.
    by rewrite (Hbad s eq_refl).
  - left. split; [|done]. unfold accepted_at, deref, accepted.
    rewrite Ho. simpl. by rewrite Hid, Hts.
  - left. split; [|done]. unfold accepted_at, deref, accepted.
    rewrite Ho. simpl. by rewrite Hid, Hts.
Qed.

Lemma py_last_app {A} (n : nat) (l k : list A) :
  py_last n (py_last n l ++ k) = py_last n (l ++ k).
Proof.
  induction k as [|x k IH] using rev_ind.
  - rewrite !app_nil_r. apply py_last_short. rewrite py_last_length. lia.
  - rewrite !app_assoc. rewrite <- (py_last_snoc n (py_last n l ++ k)).
    by rewrite IH, py_last_snoc.
Qed.

Lemma process_detections_idle n st :
  items (detection_queue st) = [] → process_detections n st = st.
Proof.
  intros Hq. induction n as [|n IH]; [done|]. simpl.
  destruct (running st); [|done]. by rewrite loop_iteration_empty.
Qed.

Lemma drain_queue q : ∀ st,
  wf st → running st = true → items (detection_queue st) = q →
  let st' := process_detections (length q) st in
  items (detection_queue st') = [] ∧
  running st' = true ∧
  detection_history st'
    = py_last 1000 (detection_history st
                    ++ filter (λ o, accepted_at st o = true) q) ∧
  total_detections (stats st')
    = total_detections (stats st)
      + Z.of_nat (length (filter (λ o, accepted_at st o = true) q)).
Proof.
  induction q as [|o rest IH]; intros st Hwf Hrun Hq.
  - simpl. rewrite app_nil_r, py_last_short by apply Hwf.
    repeat split; [done..|lia].
  - simpl. rewrite Hrun, (loop_iteration_get st o rest Hq).
    set (st1 := set_queue_items (λ _, rest) st).
    pose proof (wf_queue_refs st Hwf) as Hrefs. rewrite Hq in Hrefs.
    apply Forall_cons in Hrefs as [Ho Hrest].
    assert (wf st1) as Hwf1 by (destruct Hwf; by split).
    pose proof (process_detection_processed st1 o (wf_tracks st1 Hwf1)) as Hres.
    assert (∀ o', accepted_at (process_detection o st1).2 o' = accepted_at st o')
      as Hacc by (intros o'; by rewrite (processed_accepted_at st1 o _ o' Hres)).
    assert (filter (λ o', accepted_at (process_detection o st1).2 o' = true) rest
            = filter (λ o', accepted_at st o' = true) rest) as Hfilter.
    { apply list_filter_iff. intros o'. by rewrite Hacc. }
    pose proof (wf_processed st1 o _ Hwf1 Ho Hres) as Hwf2.
    destruct (processed_outcome st1 o _ Hres)
      as [(Hyes & _ & Hh & Htot & Hqueue & Hrun2)|(Hno & _ & Hsame)].
    + destruct (IH (process_detection o st1).2 Hwf2)
        as (Hq' & Hrun' & Hh' & Htot'); [by rewrite Hrun2|by rewrite Hqueue|].
      rewrite filter_cons_True by done.
      rewrite Hfilter in Hh', Htot'.
      split; [done|]. split; [done|]. split.
      * rewrite Hh', Hh. simpl. rewrite py_last_app, <- app_assoc. done.
      * rewrite Htot', Htot. simpl. lia.
    + rewrite Hsame in *.
      destruct (IH st1 Hwf1) as (Hq' & Hrun' & Hh' & Htot'); [done..|].
      rewrite filter_cons_False by (change (accepted_at st o) with (accepted_at st1 o); by rewrite Hno).
      done.
Qed.

(** * Further properties of the code *)

(** ** [process_detections] *)

(** X1. Read in one go between two whole passes of the consumer loop,
    the history holds as many entries as detections were counted, up to
    its cap of 1000, and [save_data] run on such a state, with no pass
    landing meanwhile, writes that many history entries.  The states
    covered are those that whole steps lead to: [start], [stop], a
    producer's [put], one whole pass of the consumer loop, a tick of
    the main loop.  The states inside a pass, which another thread may
    see between the append of line 269 and the truncation of line 274,
    are not covered. *)
Theorem X1_history_length_is_capped_total
    (now now' : Z) (acts : list action) :
  let st := run (init now) acts in
  length (detection_history st)
    = Z.to_nat (Z.min (total_detections (stats st)) 1000) ∧
  length (saved_detection_history (save_data now' st))
    = Z.to_nat (Z.min (saved_total_detections (save_data now' st)) 1000).
Proof.
  intros st. pose proof (history_length_reachable now acts) as Hlen.
  fold st in Hlen. simpl in Hlen. unfold save_data. simpl.
  rewrite length_fmap. lia.
Qed.

(** X2. In every reachable state a track is filed under its own [id],
    its [timestamp] entry is still the one of the event that created it
    and equals [first_seen], and once it has been detected twice it has
    a [last_seen] entry. *)
Theorem X2_track_id_and_stamps
    (now : Z) (acts : list action) (k : string) (t : py_dict) :
  track (run (init now) acts) k = Some t →
  t !! "id" = Some (VStr k) ∧
  (∃ ts, t !! "timestamp" = Some ts ∧ t !! "first_seen" = Some ts) ∧
  (∀ n, t !! "detection_count" = Some (VInt n) → 2 ≤ n →
        is_Some (t !! "last_seen")).
Proof.
  unfold track. intros Ht.
  destruct (detected_drones (run (init now) acts) !! k) as [r|] eqn:Hk; [|done].
  simpl in Ht.
  destruct (wf_tracks _ (wf_reachable now acts) k r Hk) as (t' & Hr & Hid & _).
  assert (t' = t) as -> by congruence.
  split; [done|]. exact (track_stamps_reachable now acts k r t Hk Ht).
Qed.

Lemma X2_witness :
  ∃ t, track (run (init 0) two_detections) "RF_2400_1000" = Some t ∧
       t !! "id" = Some (VStr "RF_2400_1000") ∧
       ∃ ts, t !! "timestamp" = Some ts ∧ t !! "first_seen" = Some ts.
Proof.
  assert (∃ t, track (run (init 0) two_detections) "RF_2400_1000" = Some t)
    as [t Ht] by (eexists; vm_compute; reflexivity).
  exists t. split; [exact Ht|].
  destruct (X2_track_id_and_stamps 0 two_detections "RF_2400_1000" t Ht)
    as (Hid & Hts & _).
  exact (conj Hid Hts).
Defined.

(** X3. One pass of the consumer loop over a non-empty queue, in any
    reachable state, the identifier of the dequeued event being a string
    if there is one: the event is applied exactly when it has an [id]
    and a timestamp, and then it is appended to the history and counted
    once; otherwise the pass raises [KeyError] for the missing entry and
    nothing but the queue has changed.  Either way the event has left
    the queue. *)
Theorem X3_loop_pass_outcome
    (now : Z) (acts : list action) (o : nat) (rest : list nat) :
  let st := run (init now) acts in
  items (detection_queue st) = o :: rest →
  keyed (deref (heap st) o) = true →
  let res := loop_iteration st in
  items (detection_queue res.2) = rest ∧
  ((accepted_at st o = true ∧ res.1 = inr () ∧
    detection_history res.2 = py_last 1000 (detection_history st ++ [o]) ∧
    total_detections (stats res.2) = total_detections (stats st) + 1) ∨
   (accepted_at st o = false ∧
    (res.1 = inl (KeyError "id") ∨ res.1 = inl (KeyError "timestamp")) ∧
    attributes res.2 = attributes st)).
Proof.
  intros st Hq Hkeyed res. unfold res. rewrite (loop_iteration_get st o rest Hq).
  pose proof (wf_reachable now acts) as Hwf. fold st in Hwf.
  set (st1 := set_queue_items (λ _, rest) st).
  assert (wf st1) as Hwf1.
  { pose proof (wf_queue_refs st Hwf) as Hrefs. rewrite Hq in Hrefs.
    apply Forall_cons in Hrefs as [_ Hrest]. destruct Hwf. by split. }
  pose proof (process_detection_processed st1 o (wf_tracks st1 Hwf1)) as Hres.
  destruct (processed_outcome st1 o _ Hres)
    as [(Hyes & Hok & Hh & Htot & Hqueue & _)|(Hno & He & Hsame)].
  - split; [by rewrite Hqueue|]. left. done.
  - rewrite Hsame. split; [done|]. right. split; [done|]. split; [|done].
    change (accepted_at st1 o) with (accepted_at st o) in Hno.
    unfold accepted_at, accepted in Hno. unfold keyed in Hkeyed.
    unfold deref in Hno, Hkeyed.
    destruct (heap st !! o) as [d|] eqn:Ho; simpl in Hno, Hkeyed.
    + destruct (d !! "id") as [[| |k|]|] eqn:Hid; try done.
      * right. destruct (d !! "timestamp") eqn:Hts; [done|].
        by rewrite (process_detection_no_timestamp st1 o d k).
      * left. by rewrite (process_detection_no_id st1 o d).
    + left. by rewrite (process_detection_dangling st1 o).
Qed.

Lemma X3_witness :
  let st := run (init 0) three_queued in
  (items (detection_queue st) = [0; 1; 2]%nat ∧
   keyed (deref (heap st) 0) = true) ∧
  items (detection_queue (loop_iteration st).2) = [1; 2]%nat.
Proof.
  intros st.
  assert (items (detection_queue st) = [0; 1; 2]%nat) as Hq by reflexivity.
  assert (keyed (deref (heap st) 0) = true) as Hk by reflexivity.
  split; [exact (conj Hq Hk)|].
  exact (proj1 (X3_loop_pass_outcome 0 three_queued 0 [1; 2]%nat Hq Hk)).
Defined.

(** X4. Draining: from any reachable running state whose queued events
    have string identifiers, as many passes as the queue holds events
    empty the queue; the events with an [id] and a timestamp, and only
    they, are appended to the history in queue order (the history keeping
    its newest 1000 entries) and counted; further passes change
    nothing. *)
Theorem X4_queue_is_drained_in_order
    (now : Z) (acts : list action) (more : nat) :
  let st := run (init now) acts in
  running st = true →
  forallb (λ o, keyed (deref (heap st) o)) (items (detection_queue st)) = true →
  let q := items (detection_queue st) in
  let st' := process_detections (length q) st in
  items (detection_queue st') = [] ∧
  detection_history st'
    = py_last 1000 (detection_history st
                    ++ filter (λ o, accepted_at st o = true) q) ∧
  total_detections (stats st')
    = total_detections (stats st)
      + Z.of_nat (length (filter (λ o, accepted_at st o = true) q)) ∧
  process_detections more st' = st'.
Proof.
  intros st Hrun _ q st'.
  destruct (drain_queue q st (wf_reachable now acts) Hrun eq_refl)
    as (Hq & _ & Hh & Htot).
  fold st' in Hq, Hh, Htot.
  split; [done|]. split; [done|]. split; [done|].
  by apply process_detections_idle.
Qed.

Lemma X4_witness :
  let st := run (init 0) three_queued in
  (running st = true ∧
   forallb (λ o, keyed (deref (heap st) o)) (items (detection_queue st)) = true) ∧
  detection_history (process_detections 3 st) = [0; 2]%nat ∧
  total_detections (stats (process_detections 3 st)) = 2.
Proof.
  intros st. assert (running st = true) as Hrun by reflexivity.
  assert (forallb (λ o, keyed (deref (heap st) o)) (items (detection_queue st))
          = true) as Hkeyed by reflexivity.
  split; [exact (conj Hrun Hkeyed)|].
  destruct (X4_queue_is_drained_in_order 0 three_queued 0 Hrun Hkeyed)
    as (_ & Hh & Htot & _).
  split; [exact Hh|exact Htot].
Defined.

(** ** [api_drones] *)

Lemma sum_tracks_list st :
  sum_tracks (tracks st)
  = sum_detection_counts
      ((λ kr, deref (heap st) kr.2) <$> map_to_list (detected_drones st)).
Proof.
  unfold sum_tracks, tracks, sum_detection_counts.
  rewrite map_fold_fmap, map_fold_foldr.
  induction (map_to_list (detected_drones st)) as [|[k r] l IH]; [done|].
  simpl. by rewrite IH.
Qed.

Lemma sum_at_least_length (l : list py_dict) :
  Forall (λ t, 1 ≤ detection_count_of t) l →
  Z.of_nat (length l) ≤ sum_detection_counts l.
Proof.
  induction 1 as [|t l Ht _ IH]; [done|].
  unfold sum_detection_counts in *. simpl. lia.
Qed.

(** X5. What [/api/drones] answers when it reads the state in one go
    between two passes of the consumer loop, that is in a state that
    whole steps lead to: [total_detections] is the sum of the
    [detection_count] entries of the listed drones, [total_drones] is
    the number of unique identifiers, and there are at least as many
    detections as drones.  An answer assembled while a pass is under
    way is not covered. *)
Theorem X5_api_drones_totals (now now' : Z) (acts : list action) :
  let st := run (init now) acts in
  let resp := api_drones now' st in
  resp_total_detections resp = sum_detection_counts (resp_drones resp) ∧
  resp_total_drones resp = size (unique_drones (stats st)) ∧
  Z.of_nat (resp_total_drones resp) ≤ resp_total_detections resp.
Proof.
  intros st resp. pose proof (wf_reachable now acts) as Hwf. fold st in Hwf.
  assert (resp_total_detections resp = sum_detection_counts (resp_drones resp))
    as Hsum.
  { unfold resp, api_drones. simpl.
    rewrite <- sum_tracks_list. apply total_is_sum_reachable. }
  split; [done|]. split.
  - unfold resp, api_drones. simpl.
    rewrite length_fmap, length_map_to_list.
    by rewrite <- (wf_unique st Hwf), size_dom.
  - rewrite Hsum. unfold resp, api_drones. simpl.
    apply sum_at_least_length. apply Forall_fmap, Forall_forall.
    intros [k r] Hkr%elem_of_map_to_list. simpl.
    destruct (wf_tracks st Hwf k r Hkr) as (t & Hr & _ & n & Hn & _ & Hdc).
    unfold deref, detection_count_of. rewrite Hr. simpl. by rewrite Hdc.
Qed.

(** ** [stop] *)




(** ** The detections the producers build *)

Lemma sdr_detection_accepted mhz epoch freq power timestamp location :
  accepted (sdr_detection mhz epoch freq power timestamp location) = true.
Proof. reflexivity. Qed.

Lemma wifi_detection_accepted bssid ty ssid signal channel timestamp location :
  accepted (wifi_detection bssid ty ssid signal channel timestamp location)
  = true.
Proof. reflexivity. Qed.

(** X7. A detection built by either producer is never rejected: in
    every reachable state applying it returns normally, counts it once
    and files a track under its identifier. *)
Theorem X7_producer_detections_are_applied
    (now : Z) (acts : list action) (mhz epoch : Z) (freq power : value)
    (bssid ty ssid : string) (signal channel : Z)
    (timestamp : string) (location : value) :
  let st := run (init now) acts in
  let rf := sdr_detection mhz epoch freq power timestamp location in
  let wifi := wifi_detection bssid ty ssid signal channel timestamp location in
  ((apply_event rf st).1 = inr () ∧
   total_detections (stats (apply_event rf st).2)
     = total_detections (stats st) + 1 ∧
   rf_id mhz epoch ∈ dom (detected_drones (apply_event rf st).2)) ∧
  ((apply_event wifi st).1 = inr () ∧
   total_detections (stats (apply_event wifi st).2)
     = total_detections (stats st) + 1 ∧
   "WIFI_" +:+ str_last 6 bssid ∈ dom (detected_drones (apply_event wifi st).2)).
Proof.
  intros st rf wifi. pose proof (wf_reachable now acts) as Hwf. fold st in Hwf.
  split.
  - destruct (apply_event_accepted st rf Hwf (sdr_detection_accepted _ _ _ _ _ _))
      as (k & Hk & Hok & _ & _ & Htot & Hdom).
    injection Hk as <-. split; [done|]. split; [done|].
    rewrite Hdom. apply elem_of_union_l. by apply elem_of_singleton.
  - destruct (apply_event_accepted st wifi Hwf
                (wifi_detection_accepted _ _ _ _ _ _ _))
      as (k & Hk & Hok & _ & _ & Htot & Hdom).
    injection Hk as <-. split; [done|]. split; [done|].
    rewrite Hdom. apply elem_of_union_l. by apply elem_of_singleton.
Qed.

(** ** History entries are shared objects *)

(** X8. The history entry of the detection that creates a track is the
    track object itself, so a later detection of the same identifier
    changes what the history shows for the first one; the entry of the
    later detection is the event as it was enqueued. *)
Theorem X8_first_history_entry_is_the_track
    (st : detector) (d0 d1 : py_dict) (k : string) (T0 T1 : value) :
  d0 !! "id" = Some (VStr k) →
  d1 !! "id" = Some (VStr k) →
  d0 !! "timestamp" = Some T0 →
  d1 !! "timestamp" = Some T1 →
  detected_drones st !! k = None →
  let o0 := length (heap st) in
  let st1 := (apply_event d0 st).2 in
  let st2 := (apply_event d1 st1).2 in
  detection_history st1 = py_last 1000 (detection_history st ++ [o0]) ∧
  detection_history st2 = py_last 1000 (detection_history st ++ [o0; S o0]) ∧
  detected_drones st2 !! k = Some o0 ∧
  deref (heap st1) o0 = new_track T0 d0 ∧
  deref (heap st2) o0 = seen_again T1 1 1 (new_track T0 d0) ∧
  deref (heap st2) (S o0) = d1.
Proof.
  intros Hid0 Hid1 Hts0 Hts1 Hk o0 st1 st2.
  assert (st1 = created k o0 T0 (allocated d0 st)) as Hst1.
  { unfold st1. by rewrite (apply_event_created st d0 k T0). }
  assert (heap st1 !! o0 = Some (new_track T0 d0)) as Hh1.
  { rewrite Hst1. simpl. rewrite list_lookup_alter_eq.
    unfold o0. by rewrite lookup_app_r, Nat.sub_diag by lia. }
  assert (length (heap st1) = S o0) as Hlen1.
  { rewrite Hst1. simpl. rewrite length_alter, length_app. simpl. lia. }
  assert (track st1 k = Some (new_track T0 d0)) as Ht1.
  { rewrite Hst1. apply track_created. }
  destruct (apply_event_updated st1 d1 k T1 (new_track T0 d0) 1 1)
    as (r & Hr & Hhr & Hst2);
    [done|done|done|apply new_track_duration|apply new_track_detection_count|].
  assert (r = o0) as ->.
  { rewrite Hst1 in Hr. simpl in Hr. rewrite lookup_insert_eq in Hr. congruence. }
  assert (st2 = updated (S o0) o0 T1 1 1 (allocated d1 st1)) as Hst2'.
  { unfold st2. by rewrite Hst2, Hlen1. }
  clear Hst2. rename Hst2' into Hst2.
  split; [by rewrite Hst1|]. split.
  { rewrite Hst2. simpl. rewrite Hst1. simpl.
    rewrite py_last_app, <- app_assoc. done. }
  split; [by rewrite Hst2|].
  split; [unfold deref; by rewrite Hh1|]. split.
  - rewrite Hst2. simpl. unfold deref. rewrite list_lookup_alter_eq.
    rewrite lookup_app_l by (rewrite Hlen1; lia). by rewrite Hh1.
  - rewrite Hst2. simpl. unfold deref.
    rewrite list_lookup_alter_ne by lia.
    rewrite lookup_app_r by lia. by rewrite Hlen1, Nat.sub_diag.
Qed.

Lemma X8_witness :
  (rf_first !! "id" = Some (VStr "RF_2400_1000") ∧
   rf_second !! "id" = Some (VStr "RF_2400_1000") ∧
   rf_first !! "timestamp" = Some (VStr "2024-05-01T10:00:00.100000") ∧
   rf_second !! "timestamp" = Some (VStr "2024-05-01T10:00:00.600000") ∧
   detected_drones (init 0) !! "RF_2400_1000" = None) ∧
  deref (heap (apply_all (init 0) [rf_first; rf_second])) 0
  = seen_again (VStr "2024-05-01T10:00:00.600000") 1 1
      (new_track (VStr "2024-05-01T10:00:00.100000") rf_first).
Proof.
  split; [repeat split; reflexivity|].
  pose proof (X8_first_history_entry_is_the_track (init 0) rf_first rf_second
                "RF_2400_1000" (VStr "2024-05-01T10:00:00.100000")
                (VStr "2024-05-01T10:00:00.600000")
                eq_refl eq_refl eq_refl eq_refl eq_refl)
    as (_ & _ & _ & _ & Hd & _).
  exact Hd.
Defined.

(** ** [load_config] *)

Lemma py_dict_set_to_map items k v :
  (list_to_map (py_dict_set items k v) : gmap string json)
  = <[k := v]> (list_to_map items).
Proof.
  induction items as [|[k' v'] items IH]; simpl; [done|].
  case_decide as Hk; simpl.
  - subst k'. by rewrite insert_insert_eq.
  - rewrite IH. by apply insert_insert_ne.
Qed.

Lemma py_dict_set_keys items k v k0 :
  k0 ∈ (py_dict_set items k v).*1 ↔ k0 = k ∨ k0 ∈ items.*1.
Proof.
  induction items as [|[k' v'] items IH]; simpl.
  - rewrite list_elem_of_singleton. split; [by left|].
    intros [->|[]%elem_of_nil]. done.
  - case_decide as Hk; simpl; rewrite !elem_of_cons.
    + subst k'. tauto.
    + rewrite IH. tauto.
Qed.

Lemma py_dict_set_NoDup items k v :
  NoDup items.*1 → NoDup (py_dict_set items k v).*1.
Proof.
  induction items as [|[k' v'] items IH]; simpl; intros Hnd.
  - apply NoDup_singleton.
  - apply NoDup_cons in Hnd as [Hk' Hnd].
    case_decide as Hk; simpl; apply NoDup_cons.
    + done.
    + split; [|by apply IH].
      rewrite py_dict_set_keys. intros [->|?]; done.
Qed.

Lemma dict_items_NoDup members : NoDup (dict_items members).*1.
Proof.
  unfold dict_items.
  assert (∀ acc : list (string * json), NoDup acc.*1 →
            NoDup (foldl (λ items kv, py_dict_set items kv.1 kv.2)
                     acc members).*1) as H.
  { induction members as [|[k v] members IH]; simpl; [done|].
    intros acc Hacc. apply IH. by apply py_dict_set_NoDup. }
  apply H. constructor.
Qed.

Lemma dict_get_items members key other :
  (key, other) ∈ dict_items members ↔ dict_get members key = Some other.
Proof.
  unfold dict_get. apply elem_of_list_to_map, dict_items_NoDup.
Qed.

(** Updating with the items of a dictionary: the items override. *)
Lemma update_with_items (d : settings) (items : list (string * json)) k :
  NoDup items.*1 →
  foldl (λ d' kv, <[kv.1 := kv.2]> d') d items !! k
  = match (list_to_map items : gmap string json) !! k with
    | Some v => Some v
    | None => d !! k
    end.
Proof.
  revert d. induction items as [|[k' v] items IH]; simpl; intros d Hnd.
  - by rewrite lookup_empty.
  - apply NoDup_cons in Hnd as [Hk' Hnd]. rewrite IH by done.
    destruct (decide (k' = k)) as [->|Hne].
    + rewrite (not_elem_of_list_to_map_1 _ k) by done.
      by rewrite !lookup_insert_eq.
    + by rewrite !lookup_insert_ne by done.
Qed.

(** The loop on a file whose values under known names are all
    dictionaries: each known section is updated with its dictionary. *)
Lemma merge_items_objects (items : list (string * json)) (config : config_t) :
  NoDup items.*1 →
  (∀ key other, (key, other) ∈ items → is_Some (config !! key) →
                is_object other = true) →
  ∃ config', merge_items items config = inr config' ∧
    ∀ key, config' !! key
           = (λ known : settings,
                match (list_to_map items : gmap string json) !! key with
                | Some (JObj section) =>
                    foldl (λ d' kv, <[kv.1 := kv.2]> d') known
                      (dict_items section)
                | _ => known
                end) <$> config !! key.
Proof.
  revert config.
  induction items as [|[k o] items IH]; simpl; intros config Hnd Hobj.
  - exists config. split; [done|]. intros key.
    rewrite lookup_empty. by destruct (config !! key).
  - apply NoDup_cons in Hnd as [Hk Hnd].
    destruct (config !! k) as [known|] eqn:Hknown.
    + destruct o as [| | | | |?|section];
        try (by specialize (Hobj k _ (list_elem_of_here _ _)
                              ltac:(rewrite Hknown; by eexists))).
      simpl.
      destruct (IH (<[k := foldl (λ d' kv, <[kv.1 := kv.2]> d') known
                            (dict_items section)]> config) Hnd)
        as (config' & -> & Hlook).
      { intros key other Hin Hsome. apply (Hobj key other).
        - by apply list_elem_of_further.
        - destruct (decide (k = key)) as [->|Hne].
          + rewrite Hknown. by eexists.
          + by rewrite lookup_insert_ne in Hsome. }
      exists config'. split; [done|]. intros key. rewrite Hlook.
      destruct (decide (k = key)) as [->|Hne].
      * rewrite !lookup_insert_eq, Hknown. simpl.
        by rewrite (not_elem_of_list_to_map_1 _ key).
      * by rewrite !lookup_insert_ne by done.
    + destruct (IH config Hnd) as (config' & -> & Hlook).
      { intros key other Hin. apply Hobj. by apply list_elem_of_further. }
      exists config'. split; [done|]. intros key. rewrite Hlook.
      destruct (decide (k = key)) as [->|Hne].
      * by rewrite Hknown.
      * by rewrite lookup_insert_ne by done.
Qed.

(** The loop raises as soon as a known section is given as [None], a
    boolean or a number, unless an earlier section raised already. *)
Lemma merge_items_raises (items : list (string * json)) (config : config_t)
    key other :
  (key, other) ∈ items → is_Some (config !! key) → scalar other = true →
  ∃ e, merge_items items config = inl e.
Proof.
  revert config.
  induction items as [|[k o] items IH]; simpl; intros config Hin Hsome Hsc.
  - by apply elem_of_nil in Hin.
  - apply elem_of_cons in Hin as [[= <- <-]|Hin].
    + destruct Hsome as [known ->].
      destruct other; try discriminate; simpl; by eexists.
    + destruct (config !! k) as [known|] eqn:Hknown; [|by apply IH].
      destruct (dict_update known o) as [e|merged]; [by eexists|].
      apply IH; [done| |done].
      destruct (decide (k = key)) as [->|Hne].
      * rewrite lookup_insert_eq. by eexists.
      * by rewrite lookup_insert_ne.
Qed.

Lemma known_sections_forall (P : json → bool) members :
  forallb P (known_sections members) = true ↔
  ∀ key other, (key, other) ∈ dict_items members →
               is_Some (default_config !! key) → P other = true.
Proof.
  unfold known_sections. rewrite forallb_forall. split.
  - intros H key other Hin Hsome. apply H, list_elem_of_In.
    apply (list_elem_of_fmap_2 snd _ (key, other)).
    by apply list_elem_of_filter.
  - intros H other Hin. apply list_elem_of_In, list_elem_of_fmap in Hin
      as [[key other'] [-> [Hsome Hin]%list_elem_of_filter]].
    by apply (H key).
Qed.

Lemma known_sections_exists (P : json → bool) members :
  existsb P (known_sections members) = true →
  ∃ key other, (key, other) ∈ dict_items members ∧
               is_Some (default_config !! key) ∧ P other = true.
Proof.
  unfold known_sections. rewrite existsb_exists.
  intros (other & Hin & HP). apply list_elem_of_In, list_elem_of_fmap in Hin
    as [[key other'] [-> [Hsome Hin]%list_elem_of_filter]].
  by exists key, other'.
Qed.

(** X9. [load_config] on whatever it finds at [config_file].  Without a
    file it returns [default_config]; a file that cannot be opened or
    parsed makes it raise.  A document that is [null], a boolean or a
    number makes it raise [TypeError].  A document that is an object
    makes it raise as soon as the value under the name of a default
    section is [null], a boolean or a number.  When the values under
    the names of the default sections are all objects it returns
    exactly the sections of the defaults (the other members of the file
    are ignored); in each of them an entry of the file overrides the
    default, a default the file does not mention is kept, and entries
    the defaults do not have are added. *)
Theorem X9_load_config_merges_known_sections :
  load_config Missing = inr default_config ∧
  load_config Unreadable = inl ReadError ∧
  (∀ other, scalar other = true →
     load_config (Parsed other) = inl ConfigTypeError) ∧
  (∀ members, existsb scalar (known_sections members) = true →
     ∃ e, load_config (Parsed (JObj members)) = inl e) ∧
  (∀ members, forallb is_object (known_sections members) = true →
     ∃ config,
       load_config (Parsed (JObj members)) = inr config ∧
       dom config = dom default_config ∧
       ∀ key known, default_config !! key = Some known →
         ∃ merged, config !! key = Some merged ∧
           ∀ k, merged !! k = match file_entry members key k with
                              | Some v => Some v
                              | None => known !! k
                              end).
Proof.
  split; [done|]. split; [done|]. split; [|split].
  - intros other Hsc. by destruct other.
  - intros members (key & other & Hin & Hsome & Hsc)%known_sections_exists.
    simpl. by apply (merge_items_raises _ _ key other).
  - intros members Hobj. simpl.
    destruct (merge_items_objects (dict_items members) default_config
                (dict_items_NoDup members)) as (config & Hrun & Hlook).
    { intros key other Hin Hsome.
      by apply (proj1 (known_sections_forall is_object members) Hobj key). }
    exists config. split; [done|]. split.
    + apply set_eq. intros key. rewrite !elem_of_dom, Hlook.
      by rewrite fmap_is_Some.
    + intros key known Hknown. rewrite Hlook, Hknown. simpl.
      eexists. split; [done|]. intros k. unfold file_entry, dict_get.
      destruct (list_to_map (dict_items members) !! key)
        as [[| | | | | |section]|]; try done.
      apply update_with_items, dict_items_NoDup.
Qed.

Lemma X9_witness :
  (forallb is_object (known_sections user_file) = true ∧
   ∃ config merged,
     load_config (Parsed (JObj user_file)) = inr config ∧
     config !! "detection" = Some merged ∧
     merged !! "signal_threshold" = Some (JInt (-75)) ∧
     merged !! "min_duration" = Some (JInt 2) ∧
     merged !! "cooldown" = Some (JInt 5)) ∧
  (existsb scalar (known_sections port_only_file) = true ∧
   ∃ e, load_config (Parsed (JObj port_only_file)) = inl e).
Proof.
  assert (forallb is_object (known_sections user_file) = true) as H1
    by reflexivity.
  assert (existsb scalar (known_sections port_only_file) = true) as H2
    by reflexivity.
  destruct X9_load_config_merges_known_sections as (_ & _ & _ & Hbad & Hgood).
  split.
  - split; [exact H1|].
    destruct (Hgood user_file H1) as (config & Hrun & _ & Hsec).
    destruct (Hsec "detection" _ eq_refl) as (merged & Hm & Hk).
    exists config, merged. split; [exact Hrun|]. split; [exact Hm|].
    split; [|split]; rewrite Hk; reflexivity.
  - split; [exact H2|]. exact (Hbad port_only_file H2).
Defined.

(** ** The Wi-Fi producer *)

Lemma mentions_remove c s : mentions c (str_remove c s) = false.
Proof.
  induction s as [|a s IH]; [done|]. simpl.
  destruct (Ascii.eqb a c) eqn:Ha; [done|]. simpl. by rewrite Ha.
Qed.

Lemma ascii_lower_colon a :
  Ascii.eqb a colon = false → Ascii.eqb (ascii_lower a) colon = false.
Proof.
  destruct a as [[] [] [] [] [] [] [] []]; vm_compute; intros H; exact H.
Qed.

Lemma mentions_lower s :
  mentions colon s = false → mentions colon (str_lower s) = false.
Proof.
  induction s as [|a s IH]; [done|]. simpl.
  intros [Ha Hs]%orb_false_elim.
  by rewrite (ascii_lower_colon a Ha), (IH Hs).
Qed.

Lemma mentions_first c n s :
  mentions c s = false → mentions c (str_first n s) = false.
Proof.
  unfold str_first. revert n. induction s as [|a s IH]; intros n Hs.
  - by destruct n.
  - destruct n as [|n]; [done|]. simpl in *.
    apply orb_false_elim in Hs as [Ha Hs]. by rewrite Ha, (IH n Hs).
Qed.

Lemma oui_unknown s : mentions colon s = false → known_drone_ouis !! s = None.
Proof.
  intros Hs. unfold known_drone_ouis.
  rewrite !lookup_insert_ne; [apply lookup_empty|..];
    intros <-; vm_compute in Hs; discriminate Hs.
Qed.

Lemma bssid_prefix_unknown raw :
  known_drone_ouis !! str_first 6 (str_lower (str_remove colon raw)) = None.
Proof.
  apply oui_unknown, mentions_first, mentions_lower, mentions_remove.
Qed.

Lemma wifi_packet_ignored threshold c st : wifi_packet threshold c st = st.
Proof.
  unfold wifi_packet. destruct (pkt_wlan (cap_packet c)) as [wlan|]; [|done].
  destruct (wlan_bssid wlan) as [raw|]; [|done].
  by rewrite bssid_prefix_unknown.
Qed.

(** X10. The Wi-Fi producer never reports a drone.  The prefix it
    looks up has had its colons removed, while every key of
    [known_drone_ouis] is written with colons, so the lookup fails for
    every BSSID and the sniffing loop leaves the detector, its queue
    included, as it found it. *)
Theorem X10_wifi_producer_never_enqueues
    (threshold : Z) (captured : list capture) (st : detector) (raw : string) :
  known_drone_ouis !! str_first 6 (str_lower (str_remove colon raw)) = None ∧
  start_wifi_detection threshold captured st = st.
Proof.
  split; [apply bssid_prefix_unknown|].
  induction captured as [|c rest IH]; [done|]. simpl.
  destruct (running st); [|done]. by rewrite wifi_packet_ignored.
Qed.

(** ** [save_data] *)

(** X11. What [save_data] writes when it reads the state in one go
    between two passes of the consumer loop, that is in a state that
    whole steps lead to: the list of unique identifiers is as long as
    the saved registry and names exactly its keys, and the saved entry
    of a key is the track stored for it.  A document written while a
    pass is under way is not covered. *)
Theorem X11_saved_unique_are_registry_keys
    (now now' : Z) (acts : list action) (k : string) :
  let st := run (init now) acts in
  let doc := save_data now' st in
  length (saved_unique_drones doc) = size (saved_detected_drones doc) ∧
  (k ∈ saved_unique_drones doc ↔ is_Some (saved_detected_drones doc !! k)) ∧
  saved_detected_drones doc !! k = track st k.
Proof.
  intros st doc. pose proof (wf_reachable now acts) as Hwf. fold st in Hwf.
  unfold doc, save_data. simpl.
  split.
  { rewrite map_size_fmap, <- (wf_unique st Hwf).
    exact (size_dom (detected_drones st)). }
  split.
  - rewrite elem_of_elements, <- (wf_unique st Hwf), elem_of_dom.
    by rewrite lookup_fmap, fmap_is_Some.
  - destruct (track st k) as [t|] eqn:Ht.
    + by apply (tracks_track st k t Hwf).
    + rewrite lookup_fmap. unfold track in Ht.
      destruct (detected_drones st !! k) as [r|] eqn:Hk; [|done].
      destruct (wf_tracks st Hwf k r Hk) as (t & Hr & _).
      simpl in Ht. congruence.
Qed.

(** X12. No action counts a detection twice or takes one back: every
    step of the system leaves [total_detections] unchanged or adds
    exactly one, and objects are never removed from the store. *)
Theorem X12_total_detections_steps
    (now : Z) (acts : list action) (a : action) :
  let st := run (init now) acts in
  (total_detections (stats (exec st a)) = total_detections (stats st) ∨
   total_detections (stats (exec st a)) = total_detections (stats st) + 1) ∧
  (length (heap st) ≤ length (heap (exec st a)))%nat.
Proof.
  intros st. pose proof (wf_reachable now acts) as Hwf. fold st in Hwf.
  destruct a; simpl.
  - split; [by left|done].
  - split; [by left|done].
  - rewrite produce_unbounded by apply Hwf. simpl.
    split; [by left|]. rewrite length_app. lia.
  - destruct (running st); [|split; [by left|done]].
    destruct (items (detection_queue st)) as [|o rest] eqn:Hq.
    { rewrite loop_iteration_empty by done. split; [by left|done]. }
    rewrite (loop_iteration_get st o rest Hq).
    set (st1 := set_queue_items (λ _, rest) st).
    assert (wf st1) as Hwf1.
    { pose proof (wf_queue_refs st Hwf) as Hrefs. rewrite Hq in Hrefs.
      apply Forall_cons in Hrefs as [_ Hrest]. destruct Hwf. by split. }
    pose proof (process_detection_processed st1 o (wf_tracks st1 Hwf1)) as Hres.
    split.
    + destruct (processed_outcome st1 o _ Hres)
        as [(_ & _ & _ & Htot & _)|(_ & _ & ->)]; [by right|by left].
    + pose proof (payload_processed st1 o _ Hres) as Hpay.
      by rewrite <- (Forall2_length _ _ _ Hpay).
  - split; [by left|done].
Qed.

(** ** [api_export] *)


(** ** Producing and consuming in turn *)

(** X14. From a reachable running state with an empty queue, letting
    the producers put events one at a time, each followed by one pass of
    the consumer loop, ends in the state reached by applying the events
    in order; the queue is empty again. *)
Theorem X14_produce_consume_rounds
    (now : Z) (acts : list action) (evs : list py_dict) :
  let st := run (init now) acts in
  items (detection_queue st) = [] →
  running st = true →
  run st (churn evs) = apply_all st evs ∧
  items (detection_queue (run st (churn evs))) = [].
Proof.
  intros st Hq Hrun. pose proof (wf_reachable now acts) as Hwf. fold st in Hwf.
  assert (detection_queue st = PyQueue 0 []) as Hq0.
  { pose proof (wf_maxsize st Hwf) as Hm.
    destruct (detection_queue st) as [m q]. simpl in *. by subst. }
  assert (run st (churn evs) = apply_all st evs) as Heq
    by (by apply run_churn).
  split; [done|]. rewrite Heq. clear Heq.
  assert (∀ s, wf s → detection_queue (apply_all s evs) = detection_queue s)
    as Hkeep.
  { induction evs as [|d evs IH]; intros s Hs; [done|]. simpl.
    rewrite IH by (by apply wf_apply_event).
    by destruct (apply_event_queue s d Hs). }
  by rewrite Hkeep, Hq0.
Qed.

Lemma X14_witness :
  let st := run (init 0) [Start] in
  (items (detection_queue st) = [] ∧ running st = true) ∧
  run st (churn [rf_first; rf_second]) = apply_all st [rf_first; rf_second].
Proof.
  intros st.
  assert (items (detection_queue st) = []) as H1 by reflexivity.
  assert (running st = true) as H2 by reflexivity.
  split; [exact (conj H1 H2)|].
  exact (proj1 (X14_produce_consume_rounds 0 [Start] [rf_first; rf_second] H1 H2)).
Defined.

(** ** Counting detections *)

Lemma tracks_eq_track st k : wf st → tracks st !! k = track st k.
Proof.
  intros Hwf. rewrite tracks_lookup. unfold track, deref.
  destruct (detected_drones st !! k) as [r|] eqn:Hk; simpl; [|done].
  by destruct (wf_tracks st Hwf k r Hk) as (t & -> & _).
Qed.

Lemma apply_event_rejected st d :
  wf st → accepted d = false → (apply_event d st).2 = allocated d st.
Proof.
  intros Hwf Hbad. rewrite apply_event_unfold.
  pose proof (process_detection_processed (allocated d st) (length (heap st))
                (wf_tracks _ (wf_allocated d st Hwf))) as Hres.
  destruct (processed_outcome _ _ _ Hres) as [(Hyes & _)|(_ & _ & Hsame)];
    [|done].
  unfold accepted_at, deref in Hyes. rewrite allocated_lookup in Hyes.
  simpl in Hyes. congruence.
Qed.

(** An accepted event changes the track of its identifier only, and
    raises both of its counters by one, from nothing to 1 when the
    identifier is new. *)
Lemma apply_event_counts st d k :
  wf st → accepted d = true → event_id d = Some k →
  ∃ t', tracks (apply_event d st).2 = <[k := t']> (tracks st) ∧
        t' !! "duration"
          = Some (VInt (from_option detection_count_of 0 (track st k) + 1)) ∧
        t' !! "detection_count"
          = Some (VInt (from_option detection_count_of 0 (track st k) + 1)).
Proof.
  intros Hwf (k' & ts & Hid & Hts & Hev)%accepted_inv Hk.
  assert (k' = k) as -> by congruence.
  destruct (detected_drones st !! k) as [r|] eqn:Hreg.
  - destruct (wf_tracks st Hwf k r Hreg) as (t & Hr & _ & m & _ & Hdu & Hdc).
    assert (track st k = Some t) as Ht by (unfold track; by rewrite Hreg).
    destruct (apply_event_updated st d k ts t m m Hid Hts Ht Hdu Hdc)
      as (r' & Hreg' & _ & ->).
    assert (r' = r) as -> by congruence.
    exists (seen_again ts m m t). simpl. split.
    + rewrite (tracks_updated (allocated d st) _ k r t).
      * by rewrite tracks_allocated.
      * by apply wf_allocated.
      * done.
      * by apply allocated_lookup_old.
    + rewrite Ht. simpl. unfold detection_count_of. rewrite Hdc.
      by rewrite seen_again_duration, seen_again_detection_count.
  - assert (track st k = None) as Ht by (unfold track; by rewrite Hreg).
    rewrite (apply_event_created st d k ts Hid Hts Hreg).
    exists (new_track ts d). simpl. split.
    + rewrite (tracks_created (allocated d st) _ d k ts).
      * by rewrite tracks_allocated.
      * by apply wf_allocated.
      * apply allocated_lookup.
      * done.
      * done.
    + rewrite Ht. simpl.
      by rewrite new_track_duration, new_track_detection_count.
Qed.

Lemma detections_of_snoc k evs d :
  detections_of k (evs ++ [d])
  = detections_of k evs
    ++ (if decide (accepted d = true ∧ event_id d = Some k) then [d] else []).
Proof.
  unfold detections_of. rewrite filter_app. by f_equal.
Qed.

(** On a fresh detector the two counters of a track hold the number of
    accepted events applied so far for its identifier. *)
Lemma counters_count_detections now evs k :
  let st := apply_all (init now) evs in
  let c := Z.of_nat (length (detections_of k evs)) in
  match track st k with
  | Some t => 1 ≤ c ∧ t !! "duration" = Some (VInt c) ∧
              t !! "detection_count" = Some (VInt c)
  | None => c = 0
  end.
Proof.
  induction evs as [|d evs IH] using rev_ind; [done|].
  simpl in *. rewrite apply_all_snoc, detections_of_snoc, length_app.
  pose proof (wf_apply_all (init now) evs (wf_init now)) as Hwf.
  set (st := apply_all (init now) evs) in *.
  rewrite <- (tracks_eq_track _ k (wf_apply_event d st Hwf)).
  destruct (accepted d) eqn:Hacc.
  - destruct (accepted_inv d Hacc) as (k0 & ts & _ & _ & Hk0).
    destruct (apply_event_counts st d k0 Hwf Hacc Hk0) as (t' & -> & Hdu & Hdc).
    destruct (decide (k0 = k)) as [->|Hne].
    + rewrite lookup_insert_eq, decide_True by done. simpl.
      rewrite Hdu, Hdc.
      destruct (track st k) as [t|]; simpl.
      * destruct IH as (Hc & _ & Ht). unfold detection_count_of. rewrite Ht.
        split; [lia|]. split; do 2 f_equal; lia.
      * split; [lia|]. split; do 2 f_equal; lia.
    + rewrite lookup_insert_ne by done.
      rewrite decide_False by (intros [_ ?]; congruence).
      rewrite (tracks_eq_track st k Hwf). simpl. by rewrite Nat.add_0_r.
  - rewrite (apply_event_rejected st d Hwf Hacc), tracks_allocated by done.
    rewrite decide_False by (intros [? _]; congruence).
    rewrite (tracks_eq_track st k Hwf). simpl. by rewrite Nat.add_0_r.
Qed.

(** C9. The [duration] and [detection_count] of a track are one and
    the same count of detections.  In every state the system reaches
    each registry entry leads to a track in which both hold the same
    positive integer.  Applying an accepted event raises both counters
    of the track of its identifier by exactly one, from nothing to 1
    when the identifier is new, and leaves every other track as it was.
    On a fresh detector both therefore equal the number of accepted
    events applied so far for the identifier, whatever their
    timestamps. *)
Theorem C9_duration_equals_detection_count
    (now : Z) (acts : list action) (evs : list py_dict)
    (d : py_dict) (k : string) :
  accepted d = true →
  event_id d = Some k →
  let st := run (init now) acts in
  let n := from_option detection_count_of 0 (track st k) in
  (∀ k', k' ∈ dom (detected_drones st) →
     ∃ t m, track st k' = Some t ∧ 1 ≤ m ∧
            t !! "duration" = Some (VInt m) ∧
            t !! "detection_count" = Some (VInt m)) ∧
  (∃ t', track (apply_event d st).2 k = Some t' ∧
         t' !! "duration" = Some (VInt (n + 1)) ∧
         t' !! "detection_count" = Some (VInt (n + 1))) ∧
  (∀ k', k' ≠ k → track (apply_event d st).2 k' = track st k') ∧
  (let c := Z.of_nat (length (detections_of k evs)) in
   match track (apply_all (init now) evs) k with
   | Some t => 1 ≤ c ∧ t !! "duration" = Some (VInt c) ∧
               t !! "detection_count" = Some (VInt c)
   | None => c = 0
   end).
Proof.
  intros Hacc Hk st n. pose proof (wf_reachable now acts) as Hwf.
  fold st in Hwf. split; [|split; [|split]].
  - intros k' [r Hr]%elem_of_dom.
    destruct (wf_tracks st Hwf k' r Hr) as (t & Ht & _ & m & Hm & Hdu & Hdc).
    exists t, m. split; [|done]. unfold track. by rewrite Hr.
  - destruct (apply_event_counts st d k Hwf Hacc Hk) as (t' & Ht' & Hdu & Hdc).
    exists t'. split; [|done].
    rewrite <- (tracks_eq_track _ k (wf_apply_event d st Hwf)), Ht'.
    apply lookup_insert_eq.
  - intros k' Hne.
    destruct (apply_event_counts st d k Hwf Hacc Hk) as (t' & Ht' & _).
    rewrite <- (tracks_eq_track _ k' (wf_apply_event d st Hwf)), Ht'.
    rewrite lookup_insert_ne by done. by apply tracks_eq_track.
  - apply counters_count_detections.
Qed.

Lemma C9_witness :
  (accepted rf_second = true ∧ event_id rf_second = Some "RF_2400_1000") ∧
  ∃ t', track (apply_event rf_second (run (init 0) two_detections)).2
          "RF_2400_1000" = Some t' ∧
        t' !! "duration" = Some (VInt 3) ∧
        t' !! "detection_count" = Some (VInt 3).
Proof.
  assert (accepted rf_second = true) as H1 by reflexivity.
  assert (event_id rf_second = Some "RF_2400_1000") as H2 by reflexivity.
  split; [exact (conj H1 H2)|].
  exact (proj1 (proj2 (C9_duration_equals_detection_count 0 two_detections []
                         rf_second "RF_2400_1000" H1 H2))).
Defined.
